(** * get-youtube-chapters: the chapter-description parser of [src/index.js]

    A shallow embedding of the parser and of the part of the ECMAScript
    regular-expression semantics its patterns use, followed by the
    properties of the cascade, of the format parsers and of the
    timestamp extractor. *)

From Stdlib Require Import String Ascii List NArith Arith Bool Lia.
Import ListNotations.

Local Open Scope N_scope.

(** ** Strings

    A JavaScript string is a sequence of UTF-16 code units. *)

Definition char := N.
Definition jsstring := list char.

(** An ASCII literal as a JavaScript string. *)
Definition js (s : string) : jsstring :=
  List.map N_of_ascii (list_ascii_of_string s).

Definition LF : char := 10.
Definition CR : char := 13.

Definition char_eqb (a b : char) : bool := N.eqb a b.

(** [0-9] *)
Definition is_digit (c : char) : bool := (48 <=? c) && (c <=? 57).

(** ECMAScript LineTerminator: LF, CR, LS, PS. *)
Definition is_line_terminator (c : char) : bool :=
  (c =? 10) || (c =? 13) || (c =? 8232) || (c =? 8233).

(** ECMAScript WhiteSpace and LineTerminator: the class [\s], and the
    characters [String.prototype.trim] strips. *)
Definition is_white_space (c : char) : bool :=
  ((9 <=? c) && (c <=? 13)) || (c =? 32) || (c =? 160) || (c =? 5760)
  || ((8192 <=? c) && (c <=? 8202)) || (c =? 8232) || (c =? 8233)
  || (c =? 8239) || (c =? 8287) || (c =? 12288) || (c =? 65279).

Fixpoint trimStart (s : jsstring) : jsstring :=
  match s with
  | c :: s' => if is_white_space c then trimStart s' else s
  | [] => []
  end.

Definition trimEnd (s : jsstring) : jsstring := rev (trimStart (rev s)).

(** [String.prototype.trim] *)
Definition trim (s : jsstring) : jsstring := trimEnd (trimStart s).

(** [parseInt(s, 10)] on a string of decimal digits.  JavaScript numbers
    are doubles; the integers met here are modelled exactly. *)
Definition digit_value (c : char) : N := c - 48.

Definition parseInt (s : jsstring) : N :=
  fold_left (fun acc c => 10 * acc + digit_value c) s 0.

(** [String.prototype.split] on one separator character. *)
Fixpoint split (sep : char) (s : jsstring) : list jsstring :=
  match s with
  | [] => [[]]
  | c :: s' =>
      if char_eqb c sep then [] :: split sep s'
      else match split sep s' with
           | l :: ls => (c :: l) :: ls
           | [] => [[c]]
           end
  end.

(** [Array.prototype.findIndex]; [None] stands for the result -1. *)
Fixpoint findIndex {A : Type} (p : A -> bool) (l : list A) : option nat :=
  match l with
  | [] => None
  | a :: l' => if p a then Some 0%nat
               else match findIndex p l' with
                    | Some i => Some (S i)
                    | None => None
                    end
  end.

(** ** Regular expressions

    The fragment of ECMAScript patterns that occurs in the source:
    character atoms, the assertions [^] and [$], sequence, alternation,
    capturing groups, the greedy optional group [(?:r)?], and [*] / [*?]
    over a single character atom ([k+] is [k k*]). *)

Inductive cclass : Type :=
| Lit (c : char)      (* a literal character *)
| Digit               (* \d *)
| Space               (* \s *)
| AnyChar.            (* .  (no s flag) *)

Inductive regex : Type :=
| REmpty
| RChar (k : cclass)
| RBol                                  (* ^ *)
| REol                                  (* $ *)
| RSeq (r1 r2 : regex)
| RAlt (r1 r2 : regex)                  (* r1|r2 *)
| RGroup (i : nat) (r : regex)          (* capturing group number i *)
| ROpt (r : regex)                      (* (?:r)? *)
| RStar (k : cclass) (greedy : bool).   (* k* and k*? *)

Definition RPlus (k : cclass) : regex := RSeq (RChar k) (RStar k true).

Definition cmatch (k : cclass) (c : char) : bool :=
  match k with
  | Lit a => char_eqb c a
  | Digit => is_digit c
  | Space => is_white_space c
  | AnyChar => negb (is_line_terminator c)
  end.

(** The state of a match in progress: the position reached, the
    character before it, the input that remains, and the captures. *)
Record mstate : Type := MState {
  pos : nat;
  prev : option char;
  rest : jsstring;
  caps : list (nat * jsstring)
}.

Definition advance (a : char) (s' : jsstring) (x : mstate) : mstate :=
  MState (S (pos x)) (Some a) s' (caps x).

Definition set_cap (i : nat) (w : jsstring) (x : mstate) : mstate :=
  MState (pos x) (prev x) (rest x) ((i, w) :: caps x).

Fixpoint lookup_cap (i : nat) (cs : list (nat * jsstring)) : option jsstring :=
  match cs with
  | [] => None
  | (j, w) :: cs' => if Nat.eqb i j then Some w else lookup_cap i cs'
  end.

(** The assertion [^]: start of input, or after a line terminator when
    the [m] flag is set. *)
Definition at_bol (ml : bool) (x : mstate) : bool :=
  match prev x with
  | None => true
  | Some c => ml && is_line_terminator c
  end.

(** The assertion [$]: end of input, or before a line terminator when
    the [m] flag is set. *)
Definition at_eol (ml : bool) (x : mstate) : bool :=
  match rest x with
  | [] => true
  | c :: _ => ml && is_line_terminator c
  end.

(** Backtracking: the first alternative that succeeds; the second is
    evaluated only when the first fails. *)
Notation "a 'orelse' b" :=
  (match a with Some z => Some z | None => b end)
  (at level 70, no associativity, only parsing).

(** [k*] (greedy) and [k*?] (lazy) followed by the continuation [c]. *)
Fixpoint star (k : cclass) (greedy : bool) (p : nat) (pv : option char)
    (s : jsstring) (cs : list (nat * jsstring))
    (c : mstate -> option mstate) : option mstate :=
  match s with
  | [] => c (MState p pv [] cs)
  | a :: s' =>
      if cmatch k a then
        if greedy
        then star k greedy (S p) (Some a) s' cs c orelse c (MState p pv s cs)
        else c (MState p pv s cs) orelse star k greedy (S p) (Some a) s' cs c
      else c (MState p pv s cs)
  end.

(** The backtracking matcher, in continuation-passing style as in the
    ECMAScript specification: [rmatch ml r x c] matches [r] at state [x]
    and passes each end state, in priority order, to [c].  Captures made
    on a path that fails are dropped with its state.  The optional group
    refuses an iteration that reads nothing, as RepeatMatcher does. *)
Fixpoint rmatch (ml : bool) (r : regex) (x : mstate)
    (c : mstate -> option mstate) : option mstate :=
  match r with
  | REmpty => c x
  | RChar k =>
      match rest x with
      | a :: s' => if cmatch k a then c (advance a s' x) else None
      | [] => None
      end
  | RBol => if at_bol ml x then c x else None
  | REol => if at_eol ml x then c x else None
  | RSeq r1 r2 => rmatch ml r1 x (fun y => rmatch ml r2 y c)
  | RAlt r1 r2 => rmatch ml r1 x c orelse rmatch ml r2 x c
  | RGroup i r =>
      rmatch ml r x
        (fun y => c (set_cap i (firstn (pos y - pos x) (rest x)) y))
  | ROpt r =>
      rmatch ml r x (fun y => if Nat.eqb (pos y) (pos x) then None else c y)
      orelse c x
  | RStar k g => star k g (pos x) (prev x) (rest x) (caps x) c
  end.

(** A RegExp object: its pattern and its flags. *)
Record RegExp : Type := mkRegExp {
  source : regex;
  flags : string
}.

Fixpoint has_flag (f : ascii) (fl : string) : bool :=
  match fl with
  | EmptyString => false
  | String a fl' => Ascii.eqb a f || has_flag f fl'
  end.

Definition multiline (R : RegExp) : bool := has_flag "m"%char (flags R).

(** The result of a successful [exec]: where the match starts, the
    matched text (element 0) and the captures. *)
Record MatchResult : Type := mkMatch {
  index : nat;
  matched : jsstring;
  groups : list (nat * jsstring)
}.

(** Element [i] (from 1) of the match array; [None] is [undefined]. *)
Definition group (m : MatchResult) (i : nat) : option jsstring :=
  lookup_cap i (groups m).

(** The leftmost match: try each start position in turn. *)
Fixpoint scan (ml : bool) (r : regex) (p : nat) (pv : option char)
    (s : jsstring) : option MatchResult :=
  match rmatch ml r (MState p pv s []) (fun y => Some y) with
  | Some y => Some (mkMatch p (firstn (pos y - p) s) (caps y))
  | None =>
      match s with
      | [] => None
      | a :: s' => scan ml r (S p) (Some a) s'
      end
  end.

(** [RegExp.prototype.exec] for a pattern without the [g] and [y]
    flags: the search starts at position 0 whatever [lastIndex] holds. *)
Definition exec (R : RegExp) (s : jsstring) : option MatchResult :=
  scan (multiline R) (source R) 0 None s.

(** [RegExp.prototype.test] *)
Definition test (R : RegExp) (s : jsstring) : bool :=
  match exec R s with
  | Some _ => true
  | None => false
  end.

(** [s.replace(R, '')] for a pattern without the [g] flag: the first
    match is removed. *)
Definition replace_empty (R : RegExp) (s : jsstring) : jsstring :=
  match exec R s with
  | Some m =>
      firstn (index m) s ++ skipn (index m + length (matched m)) s
  | None => s
  end.

(** ** The program *)

Definition ch (a : ascii) : regex := RChar (Lit (N_of_ascii a)).

(** A sequence of terms. *)
Fixpoint rseq (l : list regex) : regex :=
  match l with
  | [] => REmpty
  | [r] => r
  | r :: l' => RSeq r (rseq l')
  end.

(** [a || b] on values that are a string or [undefined]: the empty
    string and [undefined] are falsy. *)
Definition js_or (a b : option jsstring) : option jsstring :=
  match a with
  | Some (c :: w) => Some (c :: w)
  | _ => b
  end.

(** [a || '0'] *)
Definition or_zero (a : option jsstring) : jsstring :=
  match a with
  | Some (c :: w) => c :: w
  | _ => js "0"
  end.

(** [(?:(\d+):)?(\d+):(\d+)], which every pattern but the start
    patterns contains, with its groups numbered from [i]. *)
Definition hms (i : nat) : regex :=
  rseq [ROpt (rseq [RGroup i (RPlus Digit); ch ":"]);
        RGroup (S i) (RPlus Digit); ch ":"; RGroup (S (S i)) (RPlus Digit)].

(** [/(?:\[\s*(?:(\d+):)?(\d+):(\d+)\s*\]|\(\s*(?:(\d+):)?(\d+):(\d+)\s*\)|(?:(\d+):)?(\d+):(\d+))/] *)
Definition timestampRegex : RegExp :=
  mkRegExp
    (RAlt (rseq [ch "["; RStar Space true; hms 1; RStar Space true; ch "]"])
       (RAlt (rseq [ch "("; RStar Space true; hms 4; RStar Space true; ch ")"])
          (hms 7)))
    "".

(** [/^\d+\.\s*/] *)
Definition ordinalRegex : RegExp :=
  mkRegExp (rseq [RBol; RPlus Digit; ch "."; RStar Space true]) "".

(** What [parseFlexibleTimestamps] returns: [{ timestamp, title }]. *)
Record Flexible : Type := mkFlexible {
  timestamp : N;
  rawTitle : jsstring
}.

(** [parseFlexibleTimestamps(line)].  Its two patterns are literals of
    the function body: each call works on fresh RegExp objects. *)
Definition parseFlexibleTimestamps (line : jsstring) : Flexible :=
  match exec timestampRegex line with
  | None => mkFlexible 0 line
  | Some m =>
      let hours :=
        parseInt (or_zero (js_or (js_or (group m 1) (group m 4)) (group m 7))) in
      let minutes :=
        parseInt (or_zero (js_or (js_or (group m 2) (group m 5)) (group m 8))) in
      let seconds :=
        parseInt (or_zero (js_or (js_or (group m 3) (group m 6)) (group m 9))) in
      let timestamp := hours * 3600 + minutes * 60 + seconds in
      let title :=
        trim (replace_empty ordinalRegex (replace_empty timestampRegex line)) in
      mkFlexible timestamp title
  end.

(** [line.trim() !== ''] *)
Definition nonEmpty (line : jsstring) : bool :=
  match trim line with
  | [] => false
  | _ :: _ => true
  end.

(** [skipEmptyLines(description)] *)
Definition skipEmptyLines (description : jsstring) : list jsstring :=
  filter nonEmpty (split LF description).

(** [addM(regex)] *)
Definition addM (regex : RegExp) : RegExp :=
  if negb (has_flag "m"%char (flags regex))
  then mkRegExp (source regex) (flags regex ++ "m")
  else regex.

(** A chapter: [{ start, title }]. *)
Record Chapter : Type := mkChapter {
  start : N;
  title : jsstring
}.

(** The [for] loop of the parser: [chapters] is the array built so far. *)
Fixpoint chapterLoop (lineRx : RegExp) (chapterLines : list jsstring)
    (chapters : list Chapter) : list Chapter :=
  match chapterLines with
  | [] => chapters
  | line :: lines' =>
      match exec lineRx line with
      | None => chapterLoop lineRx lines' chapters
      | Some _ =>
          let r := parseFlexibleTimestamps line in
          chapterLoop lineRx lines'
            (chapters ++ [mkChapter (timestamp r) (trim (rawTitle r))])
      end
  end.

(** [makeChapterParser(startRx, lineRx, timestampIndex, textIndex)]: the
    two indices are incremented and never read. *)
Definition makeChapterParser (startRx lineRx : RegExp)
    (timestampIndex textIndex : nat) : jsstring -> list Chapter :=
  let timestampIndex := (timestampIndex + 1)%nat in
  let textIndex := (textIndex + 1)%nat in
  fun description =>
    let chapters := [] in
    let nonEmptyLines := skipEmptyLines description in
    match findIndex (fun line => test startRx line) nonEmptyLines with
    | None => chapters
    | Some firstTimestamp =>
        let chapterLines := skipn firstTimestamp nonEmptyLines in
        chapterLoop lineRx chapterLines chapters
    end.

(** [(?:\d+\.\s+)?] *)
Definition ordinal : regex :=
  ROpt (rseq [RPlus Digit; ch "."; RPlus Space]).

(** [/^0?0:00/m] *)
Definition lawfulStartRx : RegExp :=
  mkRegExp (rseq [RBol; ROpt (ch "0"); ch "0"; ch ":"; ch "0"; ch "0"]) "m".

(** [/^(?:(\d+):)?(\d+):(\d+)\s+(.*?)$/] *)
Definition lawfulLineRx : RegExp :=
  mkRegExp
    (rseq [RBol; hms 1; RPlus Space; RGroup 4 (RStar AnyChar false); REol])
    "".

(** [/^\[(?:0?0:00|00:00)\]/] *)
Definition bracketsStartRx : RegExp :=
  mkRegExp
    (rseq [RBol; ch "[";
           RAlt (rseq [ROpt (ch "0"); ch "0"; ch ":"; ch "0"; ch "0"])
                (rseq [ch "0"; ch "0"; ch ":"; ch "0"; ch "0"]);
           ch "]"]) "".

(** [/^\[(?:(\d+):)?(\d+):(\d+)\]\s+(.*?)$/] *)
Definition bracketsLineRx : RegExp :=
  mkRegExp
    (rseq [RBol; ch "["; hms 1; ch "]"; RPlus Space;
           RGroup 4 (RStar AnyChar false); REol]) "".

(** [/^\(0?0:00\)/m] *)
Definition parensStartRx : RegExp :=
  mkRegExp
    (rseq [RBol; ch "("; ROpt (ch "0"); ch "0"; ch ":"; ch "0"; ch "0";
           ch ")"]) "m".

(** [/^\((?:(\d+):)?(\d+):(\d+)\)\s+(.*?)$/] *)
Definition parensLineRx : RegExp :=
  mkRegExp
    (rseq [RBol; ch "("; hms 1; ch ")"; RPlus Space;
           RGroup 4 (RStar AnyChar false); REol]) "".

(** [/^(?:\d+\.\s+)?(.*?)\s+(?:(\d+):)?(\d+):(\d+)$/] *)
Definition postfixRx : RegExp :=
  mkRegExp
    (rseq [RBol; ordinal; RGroup 1 (RStar AnyChar false); RPlus Space;
           hms 2; REol]) "".

(** [/^(?:\d+\.\s+)?(.*?)\s+\(\s*(?:(\d+):)?(\d+):(\d+)\s*\)$/] *)
Definition postfixParenRx : RegExp :=
  mkRegExp
    (rseq [RBol; ordinal; RGroup 1 (RStar AnyChar false); RPlus Space;
           ch "("; RStar Space true; hms 2; RStar Space true; ch ")"; REol])
    "".

(** [/^(?:\d+\.\s+)?(?:(\d+):)?(\d+):(\d+)\s+(G)$/] where the group [G]
    is the greedy [.*] *)
Definition prefixRx : RegExp :=
  mkRegExp
    (rseq [RBol; ordinal; hms 1; RPlus Space; RGroup 4 (RStar AnyChar true);
           REol]) "".

Definition lawfulParser := makeChapterParser lawfulStartRx lawfulLineRx 0 3.
Definition bracketsParser :=
  makeChapterParser bracketsStartRx bracketsLineRx 0 3.
Definition parensParser := makeChapterParser parensStartRx parensLineRx 0 3.
Definition postfixParser := makeChapterParser (addM postfixRx) postfixRx 1 0.
Definition postfixParenParser :=
  makeChapterParser (addM postfixParenRx) postfixParenRx 1 0.
Definition prefixParser := makeChapterParser (addM prefixRx) prefixRx 0 3.

(** [chapters.length === 0] *)
Definition isEmpty (chapters : list Chapter) : bool :=
  Nat.eqb (List.length chapters) 0.

(** [parseYouTubeChapters(description)], the exported function. *)
Definition parseYouTubeChapters (description : jsstring) : list Chapter :=
  let chapters := lawfulParser description in
  let chapters :=
    if isEmpty chapters then bracketsParser description else chapters in
  let chapters :=
    if isEmpty chapters then parensParser description else chapters in
  let chapters :=
    if isEmpty chapters then postfixParser description else chapters in
  let chapters :=
    if isEmpty chapters then postfixParenParser description else chapters in
  let chapters :=
    if isEmpty chapters then prefixParser description else chapters in
  chapters.

(** ** What a pattern denotes

    [lastChar pv w] is the character before the position reached after
    reading [w], when [pv] was the character before [w]. *)
Definition lastChar (pv : option char) (w : jsstring) : option char :=
  fold_left (fun _ a => Some a) w pv.

Definition bol (ml : bool) (pv : option char) : bool :=
  match pv with
  | None => true
  | Some c => ml && is_line_terminator c
  end.

Definition eol (ml : bool) (post : jsstring) : bool :=
  match post with
  | [] => true
  | c :: _ => ml && is_line_terminator c
  end.

(** [denote ml r pv w post cs cs']: the pattern [r] matches the text
    [w], found after the character [pv] and before the text [post], and
    the captures [cs] become [cs']. *)
Fixpoint denote (ml : bool) (r : regex) (pv : option char) (w post : jsstring)
    (cs cs' : list (nat * jsstring)) : Prop :=
  match r with
  | REmpty => w = [] /\ cs' = cs
  | RChar k => exists a, w = [a] /\ cmatch k a = true /\ cs' = cs
  | RBol => w = [] /\ bol ml pv = true /\ cs' = cs
  | REol => w = [] /\ eol ml post = true /\ cs' = cs
  | RSeq r1 r2 =>
      exists w1 w2 cs1,
        w = w1 ++ w2 /\
        denote ml r1 pv w1 (w2 ++ post) cs cs1 /\
        denote ml r2 (lastChar pv w1) w2 post cs1 cs'
  | RAlt r1 r2 => denote ml r1 pv w post cs cs' \/ denote ml r2 pv w post cs cs'
  | RGroup i r => exists cs1, denote ml r pv w post cs cs1 /\ cs' = (i, w) :: cs1
  | ROpt r => (w <> [] /\ denote ml r pv w post cs cs') \/ (w = [] /\ cs' = cs)
  | RStar k _ => Forall (fun a => cmatch k a = true) w /\ cs' = cs
  end.

(** ** Timestamp texts

    The three shapes of timestamp: bracketed, parenthesized, bare. *)

Definition digits (s : jsstring) : Prop :=
  s <> [] /\ Forall (fun c => cmatch Digit c = true) s.

Definition spaces (s : jsstring) : Prop :=
  Forall (fun c => cmatch Space c = true) s.

(** [H:MM:SS] with the hours [h], or [MM:SS] without. *)
Definition hmsText (h : option jsstring) (mm ss : jsstring) : jsstring :=
  match h with
  | Some hh => hh ++ js ":" ++ mm ++ js ":" ++ ss
  | None => mm ++ js ":" ++ ss
  end.

Inductive TimestampShape (h : option jsstring) (mm ss : jsstring)
  : jsstring -> Prop :=
| Bracketed ws1 ws2 :
    spaces ws1 -> spaces ws2 ->
    TimestampShape h mm ss (js "[" ++ ws1 ++ hmsText h mm ss ++ ws2 ++ js "]")
| Parenthesized ws1 ws2 :
    spaces ws1 -> spaces ws2 ->
    TimestampShape h mm ss (js "(" ++ ws1 ++ hmsText h mm ss ++ ws2 ++ js ")")
| Bare :
    TimestampShape h mm ss (hmsText h mm ss).

(** [w] is a timestamp of hours [h] (when present), minutes [mm] and
    seconds [ss], each a non-empty string of digits. *)
Definition Timestamp (h : option jsstring) (mm ss w : jsstring) : Prop :=
  (forall hh, h = Some hh -> digits hh) /\ digits mm /\ digits ss /\
  TimestampShape h mm ss w.

(** The total seconds of a timestamp. *)
Definition totalSeconds (h : option jsstring) (mm ss : jsstring) : N :=
  match h with Some hh => parseInt hh | None => 0 end * 3600
  + parseInt mm * 60 + parseInt ss.

(** A timestamp occurs in [line], starting at position [i]. *)
Definition occursAt (line : jsstring) (i : nat) : Prop :=
  exists pre w post h mm ss,
    line = pre ++ w ++ post /\ List.length pre = i /\ Timestamp h mm ss w.

(** A digit, a colon and a digit in a row: what every timestamp text
    contains. *)
Fixpoint hasTimestamp (s : jsstring) : bool :=
  match s with
  | a :: s' =>
      match s' with
      | b :: c :: _ => (is_digit a && char_eqb b 58 && is_digit c) || hasTimestamp s'
      | _ => false
      end
  | [] => false
  end.

(** The head of [r], if any, does not satisfy [p]. *)
Definition headNot (p : char -> bool) (r : jsstring) : Prop :=
  match r with
  | [] => True
  | c :: _ => p c = false
  end.

(** What may follow a timestamp's seconds: nothing, or a character that
    is neither a digit nor a colon. *)
Definition tailOK (t : jsstring) : Prop :=
  match t with
  | [] => True
  | c :: _ => is_digit c = false /\ c <> 58
  end.

(** ** The ordinal prefix

    What removing a match of [ordinalRegex] does, written directly: a
    leading run of digits, the dot after it and the white space after
    the dot are dropped. *)

Fixpoint takeWhile (p : char -> bool) (s : jsstring) : jsstring :=
  match s with
  | c :: s' => if p c then c :: takeWhile p s' else []
  | [] => []
  end.

Fixpoint dropWhile (p : char -> bool) (s : jsstring) : jsstring :=
  match s with
  | c :: s' => if p c then dropWhile p s' else s
  | [] => []
  end.

Definition stripOrdinal (s : jsstring) : jsstring :=
  match takeWhile is_digit s, dropWhile is_digit s with
  | _ :: _, c :: r => if char_eqb c 46 then dropWhile is_white_space r else s
  | _, _ => s
  end.

(** The variant that asks for white space after the dot. *)
Definition stripOrdinalSpaced (s : jsstring) : jsstring :=
  match takeWhile is_digit s, dropWhile is_digit s with
  | _ :: _, c :: b :: r =>
      if char_eqb c 46 && is_white_space b
      then dropWhile is_white_space r else s
  | _, _ => s
  end.

(** [line] with the text of the match [m] taken out. *)
Definition withoutMatch (line : jsstring) (m : MatchResult) : jsstring :=
  firstn (index m) line ++ skipn (index m + List.length (matched m)) line.

(** [s.startsWith(p)] *)
Fixpoint startsWith (p s : jsstring) : bool :=
  match p, s with
  | [], _ => true
  | a :: p', b :: s' => char_eqb b a && startsWith p' s'
  | _ :: _, [] => false
  end.

(** ** The chapter of a line *)

Definition chapterOf (line : jsstring) : Chapter :=
  mkChapter (timestamp (parseFlexibleTimestamps line))
    (trim (rawTitle (parseFlexibleTimestamps line))).

(** ** The cascade, with the calls it makes

    The six formats in the order of the cascade. *)

Inductive Format : Type :=
| Lawful | Brackets | Parens | Postfix | PostfixParen | Prefix.

Definition cascade : list Format :=
  [Lawful; Brackets; Parens; Postfix; PostfixParen; Prefix].

Definition startRxOf (f : Format) : RegExp :=
  match f with
  | Lawful => lawfulStartRx
  | Brackets => bracketsStartRx
  | Parens => parensStartRx
  | Postfix => addM postfixRx
  | PostfixParen => addM postfixParenRx
  | Prefix => addM prefixRx
  end.

Definition lineRxOf (f : Format) : RegExp :=
  match f with
  | Lawful => lawfulLineRx
  | Brackets => bracketsLineRx
  | Parens => parensLineRx
  | Postfix => postfixRx
  | PostfixParen => postfixParenRx
  | Prefix => prefixRx
  end.

Definition parserOf (f : Format) : jsstring -> list Chapter :=
  match f with
  | Lawful => lawfulParser
  | Brackets => bracketsParser
  | Parens => parensParser
  | Postfix => postfixParser
  | PostfixParen => postfixParenParser
  | Prefix => prefixParser
  end.

(** A call of the parser of [f], recorded in the log of calls. *)
Definition call (f : Format) (description : jsstring) (log : list Format)
  : list Format * list Chapter :=
  (log ++ [f], parserOf f description).

(** [parseYouTubeChapters] again, statement by statement, keeping the
    log of the parsers it calls. *)
Definition parseYouTubeChaptersLogged (description : jsstring)
  : list Format * list Chapter :=
  let '(log, chapters) := call Lawful description [] in
  let '(log, chapters) :=
    if isEmpty chapters then call Brackets description log
    else (log, chapters) in
  let '(log, chapters) :=
    if isEmpty chapters then call Parens description log
    else (log, chapters) in
  let '(log, chapters) :=
    if isEmpty chapters then call Postfix description log
    else (log, chapters) in
  let '(log, chapters) :=
    if isEmpty chapters then call PostfixParen description log
    else (log, chapters) in
  let '(log, chapters) :=
    if isEmpty chapters then call Prefix description log
    else (log, chapters) in
  (log, chapters).

(** ** RegExp objects and their [lastIndex]

    A RegExp object carries a mutable [lastIndex], which [exec] and
    [test] read and write when the pattern has the [g] or the [y] flag.
    The six parsers close over twelve RegExp objects that live as long
    as the module; here the calls are run in a state monad over the
    [lastIndex] of each object. *)

Definition global (R : RegExp) : bool := has_flag "g"%char (flags R).
Definition sticky (R : RegExp) : bool := has_flag "y"%char (flags R).

(** One attempt, at position [p] only. *)
Definition matchAt (ml : bool) (r : regex) (p : nat) (pv : option char)
    (s : jsstring) : option MatchResult :=
  match rmatch ml r (MState p pv s []) (fun y => Some y) with
  | Some y => Some (mkMatch p (firstn (pos y - p) s) (caps y))
  | None => None
  end.

(** RegExpBuiltinExec: the result, and the value written to
    [lastIndex] when one is. *)
Definition builtinExec (R : RegExp) (lastIndex : nat) (s : jsstring)
  : option MatchResult * option nat :=
  let g := global R in
  let y := sticky R in
  let lastIndex := if g || y then lastIndex else 0%nat in
  if (List.length s <? lastIndex)%nat
  then (None, if g || y then Some 0%nat else None)
  else
    let pv := lastChar None (firstn lastIndex s) in
    let found :=
      if y then matchAt (multiline R) (source R) lastIndex pv (skipn lastIndex s)
      else scan (multiline R) (source R) lastIndex pv (skipn lastIndex s) in
    match found with
    | None => (None, if g || y then Some 0%nat else None)
    | Some m =>
        (Some m,
         if g || y then Some (index m + List.length (matched m))%nat else None)
    end.

Definition Loc := nat.

(** The [lastIndex] of each RegExp object. *)
Definition Heap := Loc -> nat.

Definition writeLastIndex (h : Heap) (l : Loc) (v : nat) : Heap :=
  fun l' => if Nat.eqb l' l then v else h l'.

Record RegExpObject : Type := mkObject {
  loc : Loc;
  regexp : RegExp
}.

Definition State (A : Type) : Type := Heap -> A * Heap.

Definition ret {A : Type} (a : A) : State A := fun h => (a, h).

Definition bind {A B : Type} (m : State A) (k : A -> State B) : State B :=
  fun h => let '(a, h') := m h in k a h'.

Notation "x <- m ;; k" := (bind m (fun x => k))
  (at level 61, m at next level, right associativity).

Definition execS (o : RegExpObject) (s : jsstring)
  : State (option MatchResult) :=
  fun h =>
    match builtinExec (regexp o) (h (loc o)) s with
    | (r, Some v) => (r, writeLastIndex h (loc o) v)
    | (r, None) => (r, h)
    end.

Definition testS (o : RegExpObject) (s : jsstring) : State bool :=
  r <- execS o s ;;
  ret (match r with Some _ => true | None => false end).

Fixpoint findIndexS {A : Type} (p : A -> State bool) (l : list A)
  : State (option nat) :=
  match l with
  | [] => ret None
  | a :: l' =>
      b <- p a ;;
      if b then ret (Some 0%nat)
      else
        r <- findIndexS p l' ;;
        ret (match r with Some i => Some (S i) | None => None end)
  end.

Fixpoint chapterLoopS (lineRx : RegExpObject) (chapterLines : list jsstring)
    (chapters : list Chapter) : State (list Chapter) :=
  match chapterLines with
  | [] => ret chapters
  | line :: lines' =>
      m <- execS lineRx line ;;
      match m with
      | None => chapterLoopS lineRx lines' chapters
      | Some _ =>
          let r := parseFlexibleTimestamps line in
          chapterLoopS lineRx lines'
            (chapters ++ [mkChapter (timestamp r) (trim (rawTitle r))])
      end
  end.

Definition makeChapterParserS (startRx lineRx : RegExpObject)
    (timestampIndex textIndex : nat) : jsstring -> State (list Chapter) :=
  let timestampIndex := (timestampIndex + 1)%nat in
  let textIndex := (textIndex + 1)%nat in
  fun description =>
    let chapters := [] in
    let nonEmptyLines := skipEmptyLines description in
    firstTimestamp <- findIndexS (fun line => testS startRx line) nonEmptyLines ;;
    match firstTimestamp with
    | None => ret chapters
    | Some firstTimestamp =>
        let chapterLines := skipn firstTimestamp nonEmptyLines in
        chapterLoopS lineRx chapterLines chapters
    end.

(** [addM(regex)]: the same object, or a new one at [fresh]. *)
Definition addMS (fresh : Loc) (regex : RegExpObject) : RegExpObject :=
  if negb (has_flag "m"%char (flags (regexp regex)))
  then mkObject fresh
         (mkRegExp (source (regexp regex)) (flags (regexp regex) ++ "m"))
  else regex.

Local Open Scope nat_scope.

Definition postfixObject : RegExpObject := mkObject 6 postfixRx.
Definition postfixParenObject : RegExpObject := mkObject 8 postfixParenRx.
Definition prefixObject : RegExpObject := mkObject 10 prefixRx.

Definition lawfulParserS :=
  makeChapterParserS (mkObject 0 lawfulStartRx) (mkObject 1 lawfulLineRx) 0 3.
Definition bracketsParserS :=
  makeChapterParserS (mkObject 2 bracketsStartRx) (mkObject 3 bracketsLineRx)
    0 3.
Definition parensParserS :=
  makeChapterParserS (mkObject 4 parensStartRx) (mkObject 5 parensLineRx) 0 3.
Definition postfixParserS :=
  makeChapterParserS (addMS 7 postfixObject) postfixObject 1 0.
Definition postfixParenParserS :=
  makeChapterParserS (addMS 9 postfixParenObject) postfixParenObject 1 0.
Definition prefixParserS :=
  makeChapterParserS (addMS 11 prefixObject) prefixObject 0 3.

Local Close Scope nat_scope.

Definition parseYouTubeChaptersS (description : jsstring)
  : State (list Chapter) :=
  chapters <- lawfulParserS description ;;
  chapters <- (if isEmpty chapters then bracketsParserS description
               else ret chapters) ;;
  chapters <- (if isEmpty chapters then parensParserS description
               else ret chapters) ;;
  chapters <- (if isEmpty chapters then postfixParserS description
               else ret chapters) ;;
  chapters <- (if isEmpty chapters then postfixParenParserS description
               else ret chapters) ;;
  chapters <- (if isEmpty chapters then prefixParserS description
               else ret chapters) ;;
  ret chapters.

(** ** Lines joined and taken apart

    [Array.prototype.join] with a one-character separator. *)
Fixpoint join (sep : char) (ls : list jsstring) : jsstring :=
  match ls with
  | [] => []
  | l :: ls' =>
      match ls' with
      | [] => l
      | _ :: _ => l ++ sep :: join sep ls'
      end
  end.

(** Every character of [s] is white space. *)
Definition blank (s : jsstring) : Prop :=
  Forall (fun c => is_white_space c = true) s.

(** A timestamp occurs somewhere in [line]. *)
Definition hasTs (line : jsstring) : Prop := exists i, occursAt line i.

(** The character before a position is no line terminator. *)
Definition okPrev (pv : option char) : Prop :=
  match pv with
  | None => True
  | Some a => is_line_terminator a = false
  end.

(** No character of [s] is a line terminator. *)
Definition noLineTerminator (s : jsstring) : Prop :=
  Forall (fun c => is_line_terminator c = false) s.

(** ** Chapter lists written out

    An entry of a chapter list: the digit strings of its timestamp and
    its title. *)
Record Entry : Type := mkEntry {
  entryHours : option jsstring;
  entryMinutes : jsstring;
  entrySeconds : jsstring;
  entryTitle : jsstring
}.

Definition entryText (e : Entry) : jsstring :=
  hmsText (entryHours e) (entryMinutes e) (entrySeconds e).

(** The chapter an entry stands for. *)
Definition entryChapter (e : Entry) : Chapter :=
  mkChapter (totalSeconds (entryHours e) (entryMinutes e) (entrySeconds e))
    (entryTitle e).

(** Digit strings for the timestamp, and a trimmed title without line
    terminator. *)
Definition wellFormed (e : Entry) : Prop :=
  (forall hh, entryHours e = Some hh -> digits hh) /\
  digits (entryMinutes e) /\ digits (entrySeconds e) /\
  noLineTerminator (entryTitle e) /\
  trim (entryTitle e) = entryTitle e.

(** The first entry of a list reads 0:00 or 00:00. *)
Definition startsAtZero (e : Entry) : Prop :=
  entryHours e = None /\
  (entryMinutes e = js "0" \/ entryMinutes e = js "00") /\
  entrySeconds e = js "00".

(** An entry as a line of the Lawful, Brackets and Parens formats. *)
Definition lawfulLine (e : Entry) : jsstring :=
  entryText e ++ js " " ++ entryTitle e.

Definition bracketsLine (e : Entry) : jsstring :=
  js "[" ++ entryText e ++ js "]" ++ js " " ++ entryTitle e.

Definition parensLine (e : Entry) : jsstring :=
  js "(" ++ entryText e ++ js ")" ++ js " " ++ entryTitle e.

(** The captures of a timestamp read by the third alternative of
    [timestampRegex]. *)
Definition bareCaps (h : option jsstring) (mm ss : jsstring)
  : list (nat * jsstring) :=
  (9%nat, ss) :: (8%nat, mm) ::
  match h with Some hh => [(7%nat, hh)] | None => [] end.

(** An entry as a line of the Postfix format. *)
Definition postfixLine (e : Entry) : jsstring :=
  entryTitle e ++ js " " ++ entryText e.

(** [s] starts with digits and a dot. *)
Definition hasOrdinal (s : jsstring) : bool :=
  match takeWhile is_digit s, dropWhile is_digit s with
  | _ :: _, c :: _ => char_eqb c 46
  | _, _ => false
  end.

(** A title that holds no timestamp and starts with no ordinal. *)
Definition plainTitle (e : Entry) : Prop :=
  hasTimestamp (entryTitle e) = false /\ hasOrdinal (entryTitle e) = false.

(** A digit or a colon. *)
Definition timeChar (c : char) : bool := is_digit c || char_eqb c 58.

(** * Properties *)

(** ** The matcher and what patterns denote *)

Lemma lastChar_app pv w1 w2 :
  lastChar pv (w1 ++ w2) = lastChar (lastChar pv w1) w2.
Proof. unfold lastChar. now rewrite fold_left_app. Qed.

Lemma star_sound k g : forall s p pv cs c z,
  star k g p pv s cs c = Some z ->
  exists w post,
    s = w ++ post /\ Forall (fun a => cmatch k a = true) w /\
    c (MState (p + List.length w) (lastChar pv w) post cs) = Some z.
Proof.
  induction s as [|a s IH]; intros p pv cs c z H; simpl in H.
  - exists [], []. simpl. rewrite Nat.add_0_r. auto.
  - assert (Hstop : c (MState p pv (a :: s) cs) = Some z ->
      exists w post, a :: s = w ++ post /\
        Forall (fun a => cmatch k a = true) w /\
        c (MState (p + List.length w) (lastChar pv w) post cs) = Some z).
    { intros Hc. exists [], (a :: s). simpl. rewrite Nat.add_0_r. auto. }
    assert (Hgo : star k g (S p) (Some a) s cs c = Some z ->
      cmatch k a = true ->
      exists w post, a :: s = w ++ post /\
        Forall (fun a => cmatch k a = true) w /\
        c (MState (p + List.length w) (lastChar pv w) post cs) = Some z).
    { intros Hs Ha. destruct (IH _ _ _ _ _ Hs) as (w & post & -> & Hw & Hc).
      exists (a :: w), post. simpl. rewrite Nat.add_succ_r. auto. }
    destruct (cmatch k a) eqn:Ha; [|auto].
    destruct g.
    + destruct (star k true (S p) (Some a) s cs c) eqn:Hs; [inversion H; subst|]; auto.
    + destruct (c (MState p pv (a :: s) cs)) eqn:Hc; [inversion H; subst|]; auto.
Qed.

Section Matcher.

Variable ml : bool.

Lemma rmatch_sound r : forall p pv s cs c z,
  rmatch ml r (MState p pv s cs) c = Some z ->
  exists w post cs',
    s = w ++ post /\ denote ml r pv w post cs cs' /\
    c (MState (p + List.length w) (lastChar pv w) post cs') = Some z.
Proof.
  induction r; intros p pv s cs c z H; simpl in H.
  - exists [], s, cs. simpl. rewrite Nat.add_0_r. auto.
  - destruct s as [|a s]; [discriminate|].
    destruct (cmatch k a) eqn:Ha; [|discriminate].
    exists [a], s, cs. simpl. rewrite Nat.add_1_r. eauto 6.
  - unfold at_bol in H; simpl in H. fold (bol ml pv) in H.
    destruct (bol ml pv) eqn:Hb; [|discriminate].
    exists [], s, cs. simpl. rewrite Nat.add_0_r. auto.
  - unfold at_eol in H; simpl in H. fold (eol ml s) in H.
    destruct (eol ml s) eqn:Hb; [|discriminate].
    exists [], s, cs. simpl. rewrite Nat.add_0_r. auto.
  - apply IHr1 in H. destruct H as (w1 & post1 & cs1 & -> & D1 & H).
    apply IHr2 in H. destruct H as (w2 & post & cs2 & -> & D2 & H).
    exists (w1 ++ w2), post, cs2. rewrite <- app_assoc. split; [reflexivity|].
    split; [simpl; eauto 6|].
    rewrite length_app, Nat.add_assoc, lastChar_app. exact H.
  - destruct (rmatch ml r1 (MState p pv s cs) c) eqn:H1.
    + inversion H; subst. apply IHr1 in H1.
      destruct H1 as (w & post & cs' & -> & D & Hc). exists w, post, cs'. simpl; auto.
    + apply IHr2 in H.
      destruct H as (w & post & cs' & -> & D & Hc). exists w, post, cs'. simpl; auto.
  - apply IHr in H. destruct H as (w & post & cs' & -> & D & H). simpl in H.
    unfold set_cap in H; simpl in H.
    replace (p + List.length w - p)%nat with (List.length w + 0)%nat in H by lia.
    rewrite firstn_app_2 in H. simpl in H. rewrite app_nil_r in H.
    exists w, post, ((i, w) :: cs'). simpl; eauto.
  - match type of H with (match ?e with _ => _ end) = _ => destruct e eqn:H1 end.
    + inversion H; subst. apply IHr in H1.
      destruct H1 as (w & post & cs' & -> & D & Hc). simpl in Hc.
      destruct (Nat.eqb_spec (p + List.length w) p) as [E|E]; [discriminate|].
      exists w, post, cs'. split; [reflexivity|]. split; [|exact Hc].
      simpl. left. split; [|exact D]. intros ->. simpl in E. lia.
    + exists [], s, cs. simpl. rewrite Nat.add_0_r. auto.
  - simpl in H. apply star_sound in H. destruct H as (w & post & -> & Hw & Hc).
    exists w, post, cs. simpl. auto.
Qed.

Lemma star_complete k g : forall w p pv post cs c,
  Forall (fun a => cmatch k a = true) w ->
  c (MState (p + List.length w) (lastChar pv w) post cs) <> None ->
  star k g p pv (w ++ post) cs c <> None.
Proof.
  induction w as [|a w IH]; intros p pv post cs c Hw Hc; simpl in *.
  - rewrite Nat.add_0_r in Hc. destruct post as [|b post]; simpl; [exact Hc|].
    destruct (cmatch k b); [|exact Hc].
    destruct g.
    + destruct (star k true (S p) (Some b) post cs c); [discriminate|exact Hc].
    + destruct (c (MState p pv (b :: post) cs)); [discriminate|contradiction].
  - inversion Hw as [|? ? Ha Hw']; subst. rewrite Ha.
    rewrite Nat.add_succ_r in Hc.
    specialize (IH (S p) (Some a) post cs c Hw' Hc).
    destruct g.
    + destruct (star k true (S p) (Some a) (w ++ post) cs c); [discriminate|contradiction].
    + destruct (c (MState p pv (a :: w ++ post) cs)); [discriminate|exact IH].
Qed.

Lemma rmatch_complete r : forall p pv w post cs cs' c,
  denote ml r pv w post cs cs' ->
  c (MState (p + List.length w) (lastChar pv w) post cs') <> None ->
  rmatch ml r (MState p pv (w ++ post) cs) c <> None.
Proof.
  induction r; intros p pv w post cs cs' c D Hc; simpl in D.
  - destruct D as [-> ->]. simpl in *. now rewrite Nat.add_0_r in Hc.
  - destruct D as (a & -> & Ha & ->). simpl in *. rewrite Ha.
    now rewrite Nat.add_1_r in Hc.
  - destruct D as (-> & Hb & ->). simpl in *. unfold at_bol; simpl.
    fold (bol ml pv). rewrite Hb. now rewrite Nat.add_0_r in Hc.
  - destruct D as (-> & Hb & ->). simpl in *. unfold at_eol; simpl.
    fold (eol ml post). rewrite Hb. now rewrite Nat.add_0_r in Hc.
  - destruct D as (w1 & w2 & cs1 & -> & D1 & D2). simpl.
    rewrite <- app_assoc. apply (IHr1 _ _ _ _ _ _ _ D1).
    apply (IHr2 _ _ _ _ _ _ _ D2).
    now rewrite length_app, Nat.add_assoc, lastChar_app in Hc.
  - simpl. destruct D as [D|D].
    + specialize (IHr1 _ _ _ _ _ _ _ D Hc).
      destruct (rmatch ml r1 (MState p pv (w ++ post) cs) c); [discriminate|contradiction].
    + specialize (IHr2 _ _ _ _ _ _ _ D Hc).
      destruct (rmatch ml r1 (MState p pv (w ++ post) cs) c); [discriminate|exact IHr2].
  - destruct D as (cs1 & D & ->). simpl. apply (IHr _ _ _ _ _ _ _ D).
    unfold set_cap; simpl.
    replace (p + List.length w - p)%nat with (List.length w + 0)%nat by lia.
    rewrite firstn_app_2. simpl. rewrite app_nil_r. exact Hc.
  - simpl. destruct D as [[Hne D]|[-> ->]].
    + match goal with |- (match ?e with _ => _ end) <> None =>
        assert (He : e <> None); [|destruct e; [discriminate|contradiction]] end.
      apply (IHr _ _ _ _ _ _ _ D). simpl.
      destruct (Nat.eqb_spec (p + List.length w) p) as [E|E]; [|exact Hc].
      destruct w; [contradiction|simpl in E; lia].
    + simpl in *. rewrite Nat.add_0_r in Hc.
      match goal with |- (match ?e with _ => _ end) <> None =>
        destruct e; [discriminate|exact Hc] end.
  - destruct D as [Hw ->]. simpl. now apply star_complete.
Qed.

(** The leftmost-match search. *)
Lemma scan_sound r : forall s p pv m,
  scan ml r p pv s = Some m ->
  exists pre post,
    s = pre ++ matched m ++ post /\ index m = (p + List.length pre)%nat /\
    denote ml r (lastChar pv pre) (matched m) post [] (groups m) /\
    forall pre1 rest1, s = pre1 ++ rest1 ->
      (List.length pre1 < List.length pre)%nat ->
      rmatch ml r (MState (p + List.length pre1) (lastChar pv pre1) rest1 [])
        (fun y => Some y) = None.
Proof.
  induction s as [|a s IH]; intros p pv m H; simpl in H.
  - destruct (rmatch ml r (MState p pv [] []) (fun y => Some y)) eqn:E;
      [|discriminate].
    inversion H; subst; clear H. apply rmatch_sound in E.
    destruct E as (w & post & cs' & Hs & D & Hc). inversion Hc; subst; clear Hc.
    simpl. exists [], post. simpl.
    replace (p + List.length w - p)%nat with (List.length w + 0)%nat by lia.
    rewrite Hs, firstn_app_2. simpl. rewrite app_nil_r, Nat.add_0_r.
    repeat split; auto. intros ? ? _ Hlt; simpl in Hlt; lia.
  - destruct (rmatch ml r (MState p pv (a :: s) []) (fun y => Some y)) eqn:E.
    + inversion H; subst; clear H. apply rmatch_sound in E.
      destruct E as (w & post & cs' & Hs & D & Hc). inversion Hc; subst; clear Hc.
      simpl. exists [], post. simpl.
      replace (p + List.length w - p)%nat with (List.length w + 0)%nat by lia.
      rewrite Hs, firstn_app_2. simpl. rewrite app_nil_r, Nat.add_0_r.
      repeat split; auto. intros ? ? _ Hlt; simpl in Hlt; lia.
    + apply IH in H. destruct H as (pre & post & Hs & Hi & D & Hmin).
      exists (a :: pre), post. simpl. rewrite Nat.add_succ_r.
      repeat split; auto; [now f_equal|].
      intros pre1 rest1 Hs1 Hlt. destruct pre1 as [|b pre1]; simpl in *.
      * subst rest1. rewrite Nat.add_0_r. exact E.
      * inversion Hs1; subst b. rewrite Nat.add_succ_r.
        apply Hmin; [assumption|lia].
Qed.

Lemma scan_none r : forall s p pv,
  scan ml r p pv s = None ->
  forall pre1 rest1, s = pre1 ++ rest1 ->
    rmatch ml r (MState (p + List.length pre1) (lastChar pv pre1) rest1 [])
      (fun y => Some y) = None.
Proof.
  induction s as [|a s IH]; intros p pv H pre1 rest1 Hs; simpl in H;
    match type of H with (match ?e with _ => _ end) = _ => destruct e eqn:E end;
    try discriminate.
  - destruct pre1; [|discriminate]. simpl in *. subst. now rewrite Nat.add_0_r.
  - destruct pre1 as [|b pre1]; simpl in *.
    + subst. now rewrite Nat.add_0_r.
    + inversion Hs; subst. rewrite Nat.add_succ_r.
      apply (IH (S p) (Some b) H pre1 rest1 eq_refl).
Qed.

End Matcher.

Lemma exec_sound R s m :
  exec R s = Some m ->
  exists pre post,
    s = pre ++ matched m ++ post /\ index m = List.length pre /\
    denote (multiline R) (source R) (lastChar None pre) (matched m) post []
      (groups m).
Proof.
  intros H. apply scan_sound in H. destruct H as (pre & post & Hs & Hi & D & _).
  exists pre, post. auto.
Qed.

Lemma exec_leftmost R s m pre w post cs' :
  exec R s = Some m ->
  s = pre ++ w ++ post ->
  denote (multiline R) (source R) (lastChar None pre) w post [] cs' ->
  (index m <= List.length pre)%nat.
Proof.
  intros H Hs D. apply scan_sound in H.
  destruct H as (pre0 & post0 & Hs0 & Hi & _ & Hmin). simpl in Hi. rewrite Hi.
  destruct (Nat.le_gt_cases (List.length pre0) (List.length pre)) as [|Hlt];
    [assumption|].
  specialize (Hmin pre (w ++ post) Hs Hlt). exfalso.
  revert Hmin. apply rmatch_complete with (cs' := cs'); [exact D|discriminate].
Qed.

Lemma exec_none R s pre w post cs' :
  exec R s = None ->
  s = pre ++ w ++ post ->
  ~ denote (multiline R) (source R) (lastChar None pre) w post [] cs'.
Proof.
  intros H Hs D. pose proof (scan_none _ _ _ _ _ H pre (w ++ post) Hs) as Hn.
  revert Hn. apply rmatch_complete with (cs' := cs'); [exact D|discriminate].
Qed.

(** ** The patterns of the program *)

Ltac destr :=
  repeat match goal with
  | H : _ /\ _ |- _ => destruct H
  | H : exists _, _ |- _ => destruct H
  end.

Lemma denote_plus ml k pv w post cs cs' :
  denote ml (RPlus k) pv w post cs cs' <->
  w <> [] /\ Forall (fun a => cmatch k a = true) w /\ cs' = cs.
Proof.
  unfold RPlus; simpl. split.
  - intros H; destr; subst. repeat split; [discriminate|now constructor].
  - intros (Hne & Hw & ->). destruct w as [|a w]; [contradiction|].
    inversion Hw; subst. exists [a], w, cs. eauto 8.
Qed.

Lemma denote_ch ml a pv w post cs cs' :
  denote ml (ch a) pv w post cs cs' <-> w = [N_of_ascii a] /\ cs' = cs.
Proof.
  unfold ch; simpl. unfold char_eqb. split.
  - intros (b & -> & Hb & ->). apply N.eqb_eq in Hb. now subst.
  - intros [-> ->]. exists (N_of_ascii a). rewrite N.eqb_refl. auto.
Qed.

Lemma denote_hms ml i pv w post cs cs' :
  denote ml (hms i) pv w post cs cs' <->
  exists h mm ss,
    (forall hh, h = Some hh -> digits hh) /\ digits mm /\ digits ss /\
    w = hmsText h mm ss /\
    cs' = (S (S i), ss) :: (S i, mm) ::
          match h with Some hh => (i, hh) :: cs | None => cs end.
Proof.
  cbn [hms rseq denote]. split.
  - intros H; destr.
    repeat match goal with
    | H : denote _ (RPlus _) _ _ _ _ _ |- _ => apply denote_plus in H
    | H : denote _ (ch _) _ _ _ _ _ |- _ => apply denote_ch in H
    end; destr; subst.
    match goal with H : _ \/ _ |- _ => destruct H as [[Hne H]|[-> ->]] end.
    + destr.
      repeat match goal with
      | H : denote _ (RPlus _) _ _ _ _ _ |- _ => apply denote_plus in H
      | H : denote _ (ch _) _ _ _ _ _ |- _ => apply denote_ch in H
      end; destr; subst.
      match goal with
      | |- context [(i, ?hh)] => exists (Some hh)
      end.
      do 2 eexists. unfold digits, hmsText.
      repeat split; try eassumption;
        try (match goal with E : Some _ = Some _ |- _ =>
               inversion E; subst; assumption end).
      now rewrite <- app_assoc.
    + exists None. do 2 eexists. unfold digits, hmsText.
      repeat split; try eassumption; try discriminate.
  - intros (h & mm & ss & Hh & [Hm1 Hm2] & [Hs1 Hs2] & -> & ->).
    destruct h as [hh|]; unfold hmsText.
    + destruct (Hh hh eq_refl) as [Hh1 Hh2].
      exists (hh ++ js ":"), (mm ++ js ":" ++ ss), ((i, hh) :: cs).
      rewrite <- app_assoc. split; [reflexivity|]. split.
      * left. split; [destruct hh; discriminate|].
        exists hh, (js ":"), ((i, hh) :: cs). split; [reflexivity|]. split.
        -- exists cs. split; [|reflexivity]. apply denote_plus. auto.
        -- apply denote_ch. auto.
      * exists mm, (js ":" ++ ss), ((S i, mm) :: (i, hh) :: cs).
        split; [reflexivity|]. split.
        -- exists ((i, hh) :: cs). split; [|reflexivity]. apply denote_plus. auto.
        -- exists (js ":"), ss, ((S i, mm) :: (i, hh) :: cs).
           split; [reflexivity|]. split; [apply denote_ch; auto|].
           eexists. split; [|reflexivity]. apply denote_plus. auto.
    + exists [], (mm ++ js ":" ++ ss), cs. split; [reflexivity|]. split.
      * right. auto.
      * exists mm, (js ":" ++ ss), ((S i, mm) :: cs).
        split; [reflexivity|]. split.
        -- exists cs. split; [|reflexivity]. apply denote_plus. auto.
        -- exists (js ":"), ss, ((S i, mm) :: cs).
           split; [reflexivity|]. split; [apply denote_ch; auto|].
           eexists. split; [|reflexivity]. apply denote_plus. auto.
Qed.

Ltac denote_atoms :=
  repeat match goal with
  | H : denote _ (RPlus _) _ _ _ _ _ |- _ => apply denote_plus in H
  | H : denote _ (ch _) _ _ _ _ _ |- _ => apply denote_ch in H
  | H : denote _ (hms _) _ _ _ _ _ |- _ => apply denote_hms in H
  | H : denote _ (RStar _ _) _ _ _ _ _ |- _ => simpl in H
  | H : _ /\ _ |- _ => destruct H
  | H : exists _, _ |- _ => destruct H
  end.

(** What [timestampRegex] matches is a timestamp, and the groups the
    extractor reads hold its hours, minutes and seconds. *)
Lemma timestamp_sound ml pv w post cs' :
  denote ml (source timestampRegex) pv w post [] cs' ->
  exists h mm ss,
    Timestamp h mm ss w /\
    or_zero (js_or (js_or (lookup_cap 1 cs') (lookup_cap 4 cs')) (lookup_cap 7 cs'))
      = match h with Some hh => hh | None => js "0" end /\
    or_zero (js_or (js_or (lookup_cap 2 cs') (lookup_cap 5 cs')) (lookup_cap 8 cs'))
      = mm /\
    or_zero (js_or (js_or (lookup_cap 3 cs') (lookup_cap 6 cs')) (lookup_cap 9 cs'))
      = ss.
Proof.
  cbn [denote rseq source timestampRegex].
  intros [H|[H|H]]; denote_atoms; subst;
    match goal with
    | Hh : forall hh, ?h = Some hh -> digits hh,
      Hm : digits ?mm, Hs : digits ?ss |- _ =>
        exists h, mm, ss; pose proof Hm as [Hm1 _]; pose proof Hs as [Hs1 _];
        split;
        [split; [exact Hh|split; [exact Hm|split; [exact Hs|]]]
        |destruct mm; [contradiction|]; destruct ss; [contradiction|];
         destruct h as [hh|];
           [destruct (Hh hh eq_refl) as [Hh1 _]; destruct hh; [contradiction|]|];
         cbn; auto]
    end.
  - now apply Bracketed.
  - now apply Parenthesized.
  - apply Bare.
Qed.

Lemma timestamp_complete ml pv w post h mm ss :
  Timestamp h mm ss w ->
  exists cs', denote ml (source timestampRegex) pv w post [] cs'.
Proof.
  intros (Hh & Hm & Hs & Hw).
  cbn [denote rseq source timestampRegex].
  destruct Hw as [ws1 ws2 H1 H2|ws1 ws2 H1 H2|].
  - eexists. left.
    exists (js "["), (ws1 ++ hmsText h mm ss ++ ws2 ++ js "]"), [].
    split; [reflexivity|]. split; [apply denote_ch; auto|].
    exists ws1, (hmsText h mm ss ++ ws2 ++ js "]"), [].
    split; [reflexivity|]. split; [simpl; auto|].
    eexists (hmsText h mm ss), (ws2 ++ js "]"), _.
    split; [reflexivity|]. split; [apply denote_hms; exists h, mm, ss; eauto 6|].
    eexists ws2, (js "]"), _.
    split; [reflexivity|]. split; [simpl; eauto|]. apply denote_ch; auto.
  - eexists. right. left.
    exists (js "("), (ws1 ++ hmsText h mm ss ++ ws2 ++ js ")"), [].
    split; [reflexivity|]. split; [apply denote_ch; auto|].
    exists ws1, (hmsText h mm ss ++ ws2 ++ js ")"), [].
    split; [reflexivity|]. split; [simpl; auto|].
    eexists (hmsText h mm ss), (ws2 ++ js ")"), _.
    split; [reflexivity|]. split; [apply denote_hms; exists h, mm, ss; eauto 6|].
    eexists ws2, (js ")"), _.
    split; [reflexivity|]. split; [simpl; eauto|]. apply denote_ch; auto.
  - eexists. right. right. apply denote_hms. exists h, mm, ss. eauto 6.
Qed.

(** ** The timestamp extractor *)

Lemma exec_timestamp_occurs line m :
  exec timestampRegex line = Some m ->
  exists pre post h mm ss,
    line = pre ++ matched m ++ post /\ index m = List.length pre /\
    Timestamp h mm ss (matched m) /\
    timestamp (parseFlexibleTimestamps line) = totalSeconds h mm ss.
Proof.
  intros H. pose proof (exec_sound _ _ _ H) as (pre & post & Hs & Hi & D).
  apply timestamp_sound in D. destruct D as (h & mm & ss & Ht & Eh & Em & Es).
  exists pre, post, h, mm, ss. do 3 (split; [assumption|]).
  unfold parseFlexibleTimestamps. rewrite H. cbn [timestamp]. unfold group.
  rewrite Eh, Em, Es. unfold totalSeconds. now destruct h.
Qed.

Lemma exec_timestamp_first line m j :
  exec timestampRegex line = Some m -> occursAt line j -> (index m <= j)%nat.
Proof.
  intros H (pre & w & post & h & mm & ss & Hs & <- & Ht).
  destruct (timestamp_complete (multiline timestampRegex) (lastChar None pre)
              w post h mm ss Ht) as [cs' D].
  exact (exec_leftmost _ _ _ _ _ _ _ H Hs D).
Qed.

Lemma hasTimestamp_intro : forall l1 d e l2,
  is_digit d = true -> is_digit e = true ->
  hasTimestamp (l1 ++ d :: 58 :: e :: l2) = true.
Proof.
  induction l1 as [|a l1 IH]; intros d e l2 Hd He.
  - simpl. now rewrite Hd, He.
  - specialize (IH d e l2 Hd He). rewrite <- app_comm_cons.
    destruct (l1 ++ d :: 58 :: e :: l2) as [|b [|c t]]; try discriminate.
    cbn [hasTimestamp] in *. rewrite IH. apply orb_true_r.
Qed.

Lemma digits_last s : digits s -> exists s0 d, s = s0 ++ [d] /\ is_digit d = true.
Proof.
  intros [Hne H]. destruct (exists_last Hne) as (s0 & d & ->).
  exists s0, d. split; [reflexivity|].
  apply Forall_app in H. destruct H as [_ H]. now inversion H.
Qed.

Lemma digits_first s : digits s -> exists e s0, s = e :: s0 /\ is_digit e = true.
Proof.
  intros [Hne H]. destruct s as [|e s0]; [contradiction|].
  exists e, s0. split; [reflexivity|]. now inversion H.
Qed.

Lemma hmsText_core h mm ss :
  exists A, hmsText h mm ss = A ++ mm ++ js ":" ++ ss.
Proof.
  destruct h as [hh|]; unfold hmsText.
  - exists (hh ++ js ":"). now rewrite <- app_assoc.
  - now exists [].
Qed.

Lemma occurs_hasTimestamp line i : occursAt line i -> hasTimestamp line = true.
Proof.
  intros (pre & w & post & h & mm & ss & -> & _ & _ & Hm & Hs & Hw).
  destruct (digits_last _ Hm) as (m0 & d & -> & Hd).
  destruct (digits_first _ Hs) as (e & s0 & -> & He).
  destruct (hmsText_core h (m0 ++ [d]) (e :: s0)) as [A EA].
  assert (exists X Y, w = X ++ d :: 58 :: e :: Y) as (X & Y & ->).
  { destruct Hw as [ws1 ws2 _ _|ws1 ws2 _ _|]; rewrite EA.
    - exists (js "[" ++ ws1 ++ A ++ m0), (s0 ++ ws2 ++ js "]").
      repeat rewrite <- app_assoc. reflexivity.
    - exists (js "(" ++ ws1 ++ A ++ m0), (s0 ++ ws2 ++ js ")").
      repeat rewrite <- app_assoc. reflexivity.
    - exists (A ++ m0), s0. repeat rewrite <- app_assoc. reflexivity. }
  rewrite <- app_assoc, <- app_comm_cons, app_assoc.
  now apply hasTimestamp_intro.
Qed.

(** ** The format parsers *)

Lemma test_exec R s : test R s = false <-> exec R s = None.
Proof. unfold test. destruct (exec R s); split; congruence. Qed.

Lemma chapterLoop_spec lineRx : forall chapterLines chapters,
  chapterLoop lineRx chapterLines chapters =
  chapters ++ List.map chapterOf (filter (test lineRx) chapterLines).
Proof.
  induction chapterLines as [|line lines IH]; intros chapters; simpl.
  - now rewrite app_nil_r.
  - unfold test at 1. destruct (exec lineRx line); rewrite IH; [|reflexivity].
    simpl. now rewrite <- app_assoc.
Qed.

Lemma findIndex_none {A} (p : A -> bool) l :
  (forall a, In a l -> p a = false) -> findIndex p l = None.
Proof.
  induction l as [|a l IH]; intros H; simpl; [reflexivity|].
  rewrite (H a (or_introl eq_refl)), IH; [reflexivity|].
  intros b Hb. apply H. now right.
Qed.

Lemma findIndex_some {A} (p : A -> bool) : forall l k,
  findIndex p l = Some k ->
  (k < List.length l)%nat /\
  (exists a, nth_error l k = Some a /\ p a = true) /\
  forall a, In a (firstn k l) -> p a = false.
Proof.
  induction l as [|a l IH]; intros k H; simpl in H; [discriminate|].
  destruct (p a) eqn:Ha.
  - inversion H; subst. simpl. repeat split; [lia|eauto|contradiction].
  - destruct (findIndex p l) as [i|] eqn:E; [|discriminate].
    inversion H; subst. destruct (IH i eq_refl) as (Hlt & Hex & Hbefore).
    simpl. repeat split; [lia|exact Hex|].
    intros b [<-|Hb]; auto.
Qed.

Lemma findIndex_app {A} (p : A -> bool) l1 l2 k :
  findIndex p l1 = Some k -> findIndex p (l1 ++ l2) = Some k.
Proof.
  revert k. induction l1 as [|a l1 IH]; intros k H; simpl in *; [discriminate|].
  destruct (p a); [assumption|].
  destruct (findIndex p l1) as [i|]; [|discriminate].
  now rewrite (IH i eq_refl).
Qed.

Lemma filter_none {A} (p : A -> bool) l :
  (forall a, In a l -> p a = false) -> filter p l = [].
Proof.
  induction l as [|a l IH]; intros H; simpl; [reflexivity|].
  rewrite (H a (or_introl eq_refl)). apply IH.
  intros b Hb. apply H. now right.
Qed.

Lemma makeChapterParser_none startRx lineRx ti xi description :
  (forall line, In line (skipEmptyLines description) ->
     test startRx line = false) ->
  makeChapterParser startRx lineRx ti xi description = [].
Proof.
  intros H. unfold makeChapterParser. cbv zeta.
  change (fun line => test startRx line) with (test startRx).
  now rewrite (findIndex_none _ _ H).
Qed.

Lemma makeChapterParser_some startRx lineRx ti xi description k :
  findIndex (test startRx) (skipEmptyLines description) = Some k ->
  makeChapterParser startRx lineRx ti xi description =
  List.map chapterOf
    (filter (test lineRx) (skipn k (skipEmptyLines description))).
Proof.
  intros H. unfold makeChapterParser. cbv zeta.
  change (fun line => test startRx line) with (test startRx).
  rewrite H. now rewrite chapterLoop_spec.
Qed.

Lemma split_nonempty sep s : split sep s <> [].
Proof.
  destruct s as [|c s]; simpl; [discriminate|].
  destruct (char_eqb c sep); [discriminate|].
  destruct (split sep s); discriminate.
Qed.

Lemma split_app sep : forall d t,
  split sep (d ++ sep :: t) = split sep d ++ split sep t.
Proof.
  induction d as [|c d IH]; intros t; simpl.
  - unfold char_eqb. now rewrite N.eqb_refl.
  - destruct (char_eqb c sep); rewrite IH; [reflexivity|].
    pose proof (split_nonempty sep d).
    destruct (split sep d); [contradiction|reflexivity].
Qed.

Lemma skipEmptyLines_app d t :
  skipEmptyLines (d ++ LF :: t) = skipEmptyLines d ++ skipEmptyLines t.
Proof. unfold skipEmptyLines. now rewrite split_app, filter_app. Qed.

(** ** The claims about the format parsers and the cascade *)

Lemma parserOf_unfold f :
  parserOf f =
  makeChapterParser (startRxOf f) (lineRxOf f)
    (match f with Postfix | PostfixParen => 1 | _ => 0 end)
    (match f with Postfix | PostfixParen => 0 | _ => 3 end).
Proof. now destruct f. Qed.

Lemma isEmpty_nil chapters : isEmpty chapters = true <-> chapters = [].
Proof. destruct chapters; unfold isEmpty; simpl; split; congruence. Qed.

(** C3: a parser built by [makeChapterParser] returns the empty list on
    every description none of whose non-empty lines matches its start
    pattern; hence [parseYouTubeChapters] returns the empty list (it has
    no error result) on every non-empty description none of whose
    non-empty lines matches any of the six start patterns. *)
Theorem C3_no_start_line_no_chapters :
  (forall startRx lineRx timestampIndex textIndex description,
     (forall line, In line (skipEmptyLines description) ->
        test startRx line = false) ->
     makeChapterParser startRx lineRx timestampIndex textIndex description
     = []) /\
  (forall description,
     description <> [] ->
     (forall f line, In line (skipEmptyLines description) ->
        test (startRxOf f) line = false) ->
     parseYouTubeChapters description = []).
Proof.
  split.
  - intros. now apply makeChapterParser_none.
  - intros description _ H.
    assert (E : forall f, parserOf f description = []).
    { intros f. rewrite parserOf_unfold. apply makeChapterParser_none.
      intros line. apply H. }
    unfold parseYouTubeChapters.
    change lawfulParser with (parserOf Lawful).
    change bracketsParser with (parserOf Brackets).
    change parensParser with (parserOf Parens).
    change postfixParser with (parserOf Postfix).
    change postfixParenParser with (parserOf PostfixParen).
    change prefixParser with (parserOf Prefix).
    now rewrite !E.
Qed.

Lemma C3_witness :
  makeChapterParser lawfulStartRx lawfulLineRx 0 3
    (js "Thanks for watching" ++ [LF] ++ js "See you soon") = [] /\
  parseYouTubeChapters
    (js "Thanks for watching" ++ [LF] ++ js "See you soon") = [].
Proof.
  split.
  - apply (proj1 C3_no_start_line_no_chapters).
    intros line H. vm_compute in H.
    destruct H as [<-|[<-|[]]]; vm_compute; reflexivity.
  - apply (proj2 C3_no_start_line_no_chapters).
    + discriminate.
    + intros f line H. vm_compute in H.
      destruct H as [<-|[<-|[]]]; destruct f; vm_compute; reflexivity.
Defined.

(** C4: once a line matching the start pattern is found at position [k],
    every non-empty line from there to the end is tested against the line
    pattern; the chapters are those of the matching lines, one each and
    in order, the other lines being passed over; so text after the
    chapter list whose lines do not match the line pattern changes
    nothing. *)
Theorem C4_scan_after_start_line :
  forall startRx lineRx timestampIndex textIndex description k,
    findIndex (test startRx) (skipEmptyLines description) = Some k ->
    let parse :=
      makeChapterParser startRx lineRx timestampIndex textIndex in
    let chapterLines := skipn k (skipEmptyLines description) in
    parse description
      = List.map chapterOf (filter (test lineRx) chapterLines) /\
    List.length (parse description)
      = List.length (filter (test lineRx) chapterLines) /\
    (forall i line,
       nth_error (filter (test lineRx) chapterLines) i = Some line ->
       nth_error (parse description) i = Some (chapterOf line)) /\
    (forall trailing,
       (forall line, In line (skipEmptyLines trailing) ->
          test lineRx line = false) ->
       parse (description ++ LF :: trailing) = parse description).
Proof.
  intros startRx lineRx ti xi description k H parse chapterLines.
  assert (E : parse description =
              List.map chapterOf (filter (test lineRx) chapterLines))
    by (apply makeChapterParser_some; exact H).
  split; [exact E|]. split; [rewrite E; apply length_map|].
  split.
  - intros i line Hi. rewrite E. now apply map_nth_error.
  - intros trailing Ht. rewrite E. unfold parse.
    rewrite (makeChapterParser_some startRx lineRx ti xi _ k);
      [|rewrite skipEmptyLines_app; now apply findIndex_app].
    rewrite skipEmptyLines_app, skipn_app.
    destruct (findIndex_some _ _ _ H) as (Hlt & _).
    replace (k - List.length (skipEmptyLines description))%nat with 0%nat
      by lia.
    cbn [skipn]. rewrite filter_app, (filter_none _ _ Ht).
    now rewrite app_nil_r.
Qed.

Lemma C4_witness :
  let description :=
    js "Welcome" ++ [LF] ++ js "0:00 Intro" ++ [LF] ++ js "(music)"
    ++ [LF] ++ js "1:30 Next" in
  let parse := makeChapterParser lawfulStartRx lawfulLineRx 0 3 in
  parse description
    = [mkChapter 0 (js "Intro"); mkChapter 90 (js "Next")] /\
  parse (description ++ LF :: js "Thanks for watching") = parse description.
Proof.
  cbv zeta.
  pose proof (C4_scan_after_start_line lawfulStartRx lawfulLineRx 0 3
    (js "Welcome" ++ [LF] ++ js "0:00 Intro" ++ [LF] ++ js "(music)"
     ++ [LF] ++ js "1:30 Next") 1 eq_refl) as (E & _ & _ & T).
  split.
  - rewrite E. vm_compute. reflexivity.
  - apply T. intros line H. vm_compute in H.
    destruct H as [<-|[]]. vm_compute. reflexivity.
Defined.

Ltac cascade_case n :=
  exists n; split; [lia|]; split; [reflexivity|]; split;
  [ intros f Hf; cbn in Hf;
    repeat (destruct Hf as [<-|Hf]; [cbn; congruence|]); contradiction
  | split; [cbn; congruence|congruence] ].

(** C1: [parseYouTubeChapters] calls the parsers in the order Lawful,
    Brackets, Parens, Postfix, Postfix-Paren, Prefix; the calls it makes
    are those up to and including the first parser whose list is not
    empty (all six when every list is empty), and it returns the list of
    the last parser called; so when the Lawful list is not empty it is
    the result, whatever the Prefix parser would give. *)
Theorem C1_cascade_first_non_empty :
  forall description,
    snd (parseYouTubeChaptersLogged description)
      = parseYouTubeChapters description /\
    (exists n,
       (n < 6)%nat /\
       fst (parseYouTubeChaptersLogged description) = firstn (S n) cascade /\
       (forall f, In f (firstn n cascade) -> parserOf f description = []) /\
       parseYouTubeChapters description
         = parserOf (nth n cascade Prefix) description /\
       (parseYouTubeChapters description = [] -> n = 5%nat)) /\
    (lawfulParser description <> [] ->
     prefixParser description <> [] ->
     parseYouTubeChapters description = lawfulParser description).
Proof.
  intros description.
  unfold parseYouTubeChaptersLogged, parseYouTubeChapters, call.
  cbn [parserOf].
  remember (lawfulParser description) as l1 eqn:E1.
  remember (bracketsParser description) as l2 eqn:E2.
  remember (parensParser description) as l3 eqn:E3.
  remember (postfixParser description) as l4 eqn:E4.
  remember (postfixParenParser description) as l5 eqn:E5.
  remember (prefixParser description) as l6 eqn:E6.
  destruct l1 as [|c1 l1];
    [destruct l2 as [|c2 l2];
      [destruct l3 as [|c3 l3];
        [destruct l4 as [|c4 l4];
          [destruct l5 as [|c5 l5]| ]| ]| ]| ];
    cbn [isEmpty List.length Nat.eqb fst snd app];
    (split; [reflexivity|]); (split; [|try reflexivity; congruence]).
  - cascade_case 5%nat.
  - cascade_case 4%nat.
  - cascade_case 3%nat.
  - cascade_case 2%nat.
  - cascade_case 1%nat.
  - cascade_case 0%nat.
Qed.

Lemma C1_witness :
  let description := js "0:00 Intro" ++ [LF] ++ js "1:30 Next" in
  prefixParser description
    = [mkChapter 0 (js "Intro"); mkChapter 90 (js "Next")] /\
  parseYouTubeChapters description = lawfulParser description /\
  fst (parseYouTubeChaptersLogged description) = [Lawful].
Proof.
  cbv zeta. split; [vm_compute; reflexivity|]. split.
  - apply (proj2 (proj2 (C1_cascade_first_non_empty
      (js "0:00 Intro" ++ [LF] ++ js "1:30 Next"))));
      vm_compute; discriminate.
  - vm_compute. reflexivity.
Defined.

(** ** A timestamp text has one reading *)

Ltac bool_to_prop :=
  repeat match goal with
  | H : _ && _ = true |- _ => apply andb_true_iff in H; destruct H
  | H : _ || _ = true |- _ => apply orb_true_iff in H; destruct H
  | H : (_ <=? _) = true |- _ => apply N.leb_le in H
  | H : (_ =? _) = true |- _ => apply N.eqb_eq in H
  | H : char_eqb _ _ = true |- _ => apply N.eqb_eq in H
  end.

Lemma digit_not_space c : is_digit c = true -> is_white_space c = false.
Proof.
  intros H. destruct (is_white_space c) eqn:E; [|reflexivity].
  unfold is_digit, is_white_space in *. bool_to_prop; lia.
Qed.

Lemma digit_not_colon c : is_digit c = true -> c <> 58.
Proof. unfold is_digit. intros H. bool_to_prop. lia. Qed.

Lemma span_app p : forall ds r,
  Forall (fun c => p c = true) ds -> headNot p r ->
  takeWhile p (ds ++ r) = ds /\ dropWhile p (ds ++ r) = r.
Proof.
  induction ds as [|d ds IH]; intros r Hds Hr; simpl.
  - destruct r as [|c r]; [auto|]. simpl in *. now rewrite Hr.
  - inversion Hds as [|? ? Hd Hds']; subst. rewrite Hd.
    destruct (IH r Hds' Hr) as [-> ->]. auto.
Qed.

Lemma span_inj p ds r ds' r' :
  Forall (fun c => p c = true) ds -> headNot p r ->
  Forall (fun c => p c = true) ds' -> headNot p r' ->
  ds ++ r = ds' ++ r' -> ds = ds' /\ r = r'.
Proof.
  intros H1 H2 H3 H4 E.
  destruct (span_app p ds r H1 H2) as [T D].
  destruct (span_app p ds' r' H3 H4) as [T' D'].
  rewrite E in T, D. split; congruence.
Qed.

Lemma tailOK_headNot t : tailOK t -> headNot is_digit t.
Proof. destruct t; simpl; tauto. Qed.

Lemma hmsText_unique h mm ss t h' mm' ss' t' :
  (forall hh, h = Some hh -> digits hh) -> digits mm -> digits ss ->
  (forall hh, h' = Some hh -> digits hh) -> digits mm' -> digits ss' ->
  tailOK t -> tailOK t' ->
  hmsText h mm ss ++ t = hmsText h' mm' ss' ++ t' ->
  h = h' /\ mm = mm' /\ ss = ss' /\ t = t'.
Proof.
  intros Hh [_ Hm] [_ Hs] Hh' [_ Hm'] [_ Hs'] Ht Ht' E.
  assert (C : headNot is_digit (58 :: @nil char)) by reflexivity.
  pose proof (tailOK_headNot _ Ht) as Hn. pose proof (tailOK_headNot _ Ht') as Hn'.
  destruct h as [hh|], h' as [hh'|]; unfold hmsText in E;
    repeat rewrite <- app_assoc in E; cbn [js List.map list_ascii_of_string app] in E;
    change (N_of_ascii ":") with 58 in E.
  - destruct (Hh hh eq_refl) as [_ H1]. destruct (Hh' hh' eq_refl) as [_ H1'].
    apply span_inj with (p := is_digit) in E; try assumption; try reflexivity.
    destruct E as [-> E]. inversion E as [E1]; clear E.
    apply span_inj with (p := is_digit) in E1; try assumption; try reflexivity.
    destruct E1 as [-> E]. inversion E as [E1]; clear E.
    apply span_inj with (p := is_digit) in E1; try assumption.
    destruct E1 as [-> ->]. auto.
  - destruct (Hh hh eq_refl) as [_ H1].
    apply span_inj with (p := is_digit) in E; try assumption; try reflexivity.
    destruct E as [-> E]. inversion E as [E1]; clear E.
    apply span_inj with (p := is_digit) in E1; try assumption; try reflexivity.
    destruct E1 as [-> E]. subst t'. simpl in Ht'. now destruct Ht'.
  - destruct (Hh' hh' eq_refl) as [_ H1'].
    apply span_inj with (p := is_digit) in E; try assumption; try reflexivity.
    destruct E as [-> E]. inversion E as [E1]; clear E.
    apply span_inj with (p := is_digit) in E1; try assumption; try reflexivity.
    destruct E1 as [-> E]. subst t. simpl in Ht. now destruct Ht.
  - apply span_inj with (p := is_digit) in E; try assumption; try reflexivity.
    destruct E as [-> E]. inversion E as [E1]; clear E.
    apply span_inj with (p := is_digit) in E1; try assumption.
    destruct E1 as [-> ->]. auto.
Qed.

Lemma hmsText_head h mm ss :
  (forall hh, h = Some hh -> digits hh) -> digits mm ->
  exists d r, hmsText h mm ss = d :: r /\ is_digit d = true.
Proof.
  intros Hh Hm. destruct h as [hh|]; unfold hmsText.
  - destruct (digits_first _ (Hh hh eq_refl)) as (d & r & -> & Hd).
    exists d. eexists. split; [reflexivity|assumption].
  - destruct (digits_first _ Hm) as (d & r & -> & Hd).
    exists d. eexists. split; [reflexivity|assumption].
Qed.

Lemma spaces_tailOK ws c : spaces ws -> tailOK [c] -> tailOK (ws ++ [c]).
Proof.
  intros Hws Hc. destruct ws as [|a ws]; [exact Hc|].
  inversion Hws as [|? ? Ha _]; subst. simpl in *. split.
  - destruct (is_digit a) eqn:E; [|reflexivity].
    apply digit_not_space in E. congruence.
  - intros ->. discriminate.
Qed.

Lemma enclosed_unique h mm ss ws1 ws2 h' mm' ss' ws1' ws2' c :
  (forall hh, h = Some hh -> digits hh) -> digits mm -> digits ss ->
  (forall hh, h' = Some hh -> digits hh) -> digits mm' -> digits ss' ->
  spaces ws1 -> spaces ws2 -> spaces ws1' -> spaces ws2' -> tailOK [c] ->
  ws1 ++ hmsText h mm ss ++ ws2 ++ [c]
    = ws1' ++ hmsText h' mm' ss' ++ ws2' ++ [c] ->
  h = h' /\ mm = mm' /\ ss = ss'.
Proof.
  intros Hh Hm Hs Hh' Hm' Hs' W1 W2 W1' W2' Hc E.
  destruct (hmsText_head h mm ss Hh Hm) as (d & r & Ed & Hd).
  destruct (hmsText_head h' mm' ss' Hh' Hm') as (d' & r' & Ed' & Hd').
  apply span_inj with (p := is_white_space) in E; try assumption;
    try (rewrite Ed; simpl; now apply digit_not_space);
    try (rewrite Ed'; simpl; now apply digit_not_space).
  destruct E as [_ E].
  apply hmsText_unique in E; try assumption; try now apply spaces_tailOK.
  tauto.
Qed.

Lemma Timestamp_unique h mm ss h' mm' ss' w :
  Timestamp h mm ss w -> Timestamp h' mm' ss' w ->
  h = h' /\ mm = mm' /\ ss = ss'.
Proof.
  intros (Hh & Hm & Hs & Hw) (Hh' & Hm' & Hs' & Hw').
  destruct (hmsText_head h mm ss Hh Hm) as (d & r & Ed & Hd).
  destruct (hmsText_head h' mm' ss' Hh' Hm') as (d' & r' & Ed' & Hd').
  inversion Hw as [ws1 ws2 W1 W2 E|ws1 ws2 W1 W2 E|E];
    inversion Hw' as [ws1' ws2' W1' W2' E'|ws1' ws2' W1' W2' E'|E'];
    subst w;
    try (rewrite ?Ed, ?Ed' in E'; cbn in E'; inversion E'; subst;
         discriminate).
  - cbn in E'. inversion E' as [E]. symmetry in E.
    apply enclosed_unique in E; try assumption.
    simpl. split; [reflexivity|discriminate].
  - cbn in E'. inversion E' as [E]. symmetry in E.
    apply enclosed_unique in E; try assumption.
    simpl. split; [reflexivity|discriminate].
  - symmetry in E'.
    rewrite <- (app_nil_r (hmsText h mm ss)),
            <- (app_nil_r (hmsText h' mm' ss')) in E'.
    apply hmsText_unique in E'; try assumption; simpl; tauto.
Qed.

(** ** The claims about the timestamp extractor *)


Ltac digits_tac := split; [discriminate|repeat constructor].


(** C5: on a line in which no timestamp of any of the three shapes
    occurs, the extractor returns the timestamp 0 and the whole line as
    the title. *)
Theorem C5_no_timestamp_whole_line :
  forall line,
    (forall i, ~ occursAt line i) ->
    parseFlexibleTimestamps line = mkFlexible 0 line.
Proof.
  intros line H. unfold parseFlexibleTimestamps.
  destruct (exec timestampRegex line) as [m|] eqn:E; [|reflexivity].
  exfalso.
  destruct (exec_timestamp_occurs line m E)
    as (pre & post & h & mm & ss & Hs & Hi & Ht & _).
  apply (H (index m)). exists pre, (matched m), post, h, mm, ss. auto.
Qed.

Lemma C5_witness :
  parseFlexibleTimestamps (js "Thanks for watching")
    = mkFlexible 0 (js "Thanks for watching").
Proof.
  apply C5_no_timestamp_whole_line.
  intros i H. apply occurs_hasTimestamp in H. vm_compute in H. discriminate.
Defined.

(** ** Greedy repetition, anchored patterns and the ordinal prefix *)

Lemma star_greedy_some k : forall s p pv cs,
  star k true p pv s cs (fun y => Some y) =
  Some (MState (p + List.length (takeWhile (cmatch k) s))
          (lastChar pv (takeWhile (cmatch k) s))
          (dropWhile (cmatch k) s) cs).
Proof.
  induction s as [|a s IH]; intros p pv cs; simpl.
  - now rewrite Nat.add_0_r.
  - destruct (cmatch k a); simpl.
    + rewrite IH. now rewrite Nat.add_succ_r.
    + now rewrite Nat.add_0_r.
Qed.

Lemma star_greedy_max k c :
  (forall y a t, rest y = a :: t -> cmatch k a = true -> c y = None) ->
  forall s p pv cs,
    star k true p pv s cs c =
    c (MState (p + List.length (takeWhile (cmatch k) s))
         (lastChar pv (takeWhile (cmatch k) s))
         (dropWhile (cmatch k) s) cs).
Proof.
  intros Hc. induction s as [|a s IH]; intros p pv cs; simpl.
  - now rewrite Nat.add_0_r.
  - destruct (cmatch k a) eqn:Ha; simpl.
    + rewrite IH, Nat.add_succ_r.
      rewrite (Hc (MState p pv (a :: s) cs) a s eq_refl Ha).
      now destruct (c _).
    + now rewrite Nat.add_0_r.
Qed.

Lemma takeWhile_dropWhile p s : takeWhile p s ++ dropWhile p s = s.
Proof.
  induction s as [|c s IH]; simpl; [reflexivity|].
  destruct (p c); simpl; [now rewrite IH|reflexivity].
Qed.

Lemma scan_bol_false r : forall s p a,
  scan false (RSeq RBol r) p (Some a) s = None.
Proof. induction s as [|b s IH]; intros p a; simpl; [reflexivity|apply IH]. Qed.

(** A pattern that starts with [^] and has no [m] flag matches at
    position 0 or nowhere. *)
Lemma exec_anchored R r s :
  source R = RSeq RBol r -> multiline R = false ->
  exec R s =
  match rmatch false r (MState 0 None s []) (fun y => Some y) with
  | Some y => Some (mkMatch 0 (firstn (pos y) s) (caps y))
  | None => None
  end.
Proof.
  intros Hr Hm. unfold exec. rewrite Hr, Hm.
  destruct s as [|a s]; simpl;
    destruct (rmatch false r _ _) as [y|]; try reflexivity.
  - now rewrite Nat.sub_0_r.
  - now rewrite Nat.sub_0_r.
  - apply scan_bol_false.
Qed.

Lemma skipn_firstn_app (l1 l2 : jsstring) :
  skipn (0 + List.length (firstn (List.length l1) (l1 ++ l2))) (l1 ++ l2) = l2.
Proof.
  rewrite firstn_app, Nat.sub_diag, firstn_all. simpl. rewrite app_nil_r.
  rewrite skipn_app, Nat.sub_diag, skipn_all. reflexivity.
Qed.

(** Removing the match of [ordinalRegex] is [stripOrdinal]. *)
Lemma replace_ordinal s : replace_empty ordinalRegex s = stripOrdinal s.
Proof.
  unfold replace_empty.
  rewrite (exec_anchored ordinalRegex _ s eq_refl eq_refl).
  unfold stripOrdinal.
  destruct s as [|d s]; [reflexivity|].
  cbn [rmatch RPlus rest cmatch ch]. cbn [takeWhile dropWhile].
  destruct (is_digit d) eqn:Hd; [|reflexivity].
  cbn [advance pos prev rest caps].
  rewrite star_greedy_max.
  2:{ intros y a t Hy Ha. cbn [rmatch]. rewrite Hy. cbn [cmatch] in *.
      unfold char_eqb. destruct (N.eqb_spec a (N_of_ascii ".")) as [->|];
        [discriminate|reflexivity]. }
  cbn [rmatch rest cmatch]. change (cmatch Digit) with is_digit.
  pose proof (takeWhile_dropWhile is_digit s) as Es.
  destruct (dropWhile is_digit s) as [|c r]; [reflexivity|].
  change (N_of_ascii ".") with 46.
  destruct (char_eqb c 46) eqn:Hc; [|reflexivity].
  cbn [advance pos prev rest caps]. rewrite star_greedy_some.
  cbn [index matched pos]. change (cmatch Space) with is_white_space.
  pose proof (takeWhile_dropWhile is_white_space r) as Er.
  set (tw := takeWhile is_digit s) in *.
  set (tw2 := takeWhile is_white_space r) in *.
  set (dw2 := dropWhile is_white_space r) in *.
  replace (d :: s) with ((d :: tw ++ c :: tw2) ++ dw2)
    by (rewrite <- Es, <- Er, <- app_comm_cons, <- app_assoc; reflexivity).
  replace (S (1 + List.length tw) + List.length tw2)%nat
    with (List.length (d :: tw ++ c :: tw2))
    by (simpl; rewrite length_app; simpl; lia).
  cbn [firstn app]. apply skipn_firstn_app.
Qed.

(** ** Trimming *)

Lemma trimStart_headNot s : headNot is_white_space (trimStart s).
Proof.
  induction s as [|c s IH]; simpl; [exact I|].
  destruct (is_white_space c) eqn:E; [exact IH|exact E].
Qed.

Lemma trimStart_fix s : headNot is_white_space s -> trimStart s = s.
Proof. destruct s as [|c s]; simpl; [reflexivity|]. now intros ->. Qed.

Lemma trimStart_suffix s :
  exists x, s = x ++ trimStart s.
Proof.
  induction s as [|c s [x IH]]; simpl; [now exists []|].
  destruct (is_white_space c).
  - exists (c :: x). simpl. now f_equal.
  - now exists [].
Qed.

Lemma trimEnd_prefix t : exists x, t = trimEnd t ++ x.
Proof.
  unfold trimEnd. destruct (trimStart_suffix (rev t)) as [x E].
  exists (rev x). rewrite <- rev_app_distr, <- E. now rewrite rev_involutive.
Qed.

Lemma trimEnd_headNot t :
  headNot is_white_space t -> headNot is_white_space (trimEnd t).
Proof.
  intros H. destruct (trimEnd_prefix t) as [x E].
  destruct (trimEnd t) as [|c u]; [exact I|].
  rewrite E in H. exact H.
Qed.

Lemma trimEnd_idem t : trimEnd (trimEnd t) = trimEnd t.
Proof.
  unfold trimEnd. rewrite rev_involutive.
  now rewrite (trimStart_fix _ (trimStart_headNot (rev t))).
Qed.

Lemma trim_idem s : trim (trim s) = trim s.
Proof.
  unfold trim at 1.
  rewrite (trimStart_fix (trim s)).
  - unfold trim. apply trimEnd_idem.
  - unfold trim. apply trimEnd_headNot, trimStart_headNot.
Qed.

(** ** The start pattern of the Brackets format *)

Lemma startsWith_spec : forall p s,
  startsWith p s = true <-> exists post, s = p ++ post.
Proof.
  induction p as [|a p IH]; intros s; simpl.
  - split; [intros _; now exists s|reflexivity].
  - destruct s as [|b s].
    + split; [discriminate|intros [post E]; discriminate].
    + rewrite andb_true_iff, IH. unfold char_eqb. rewrite N.eqb_eq. split.
      * intros [-> [post ->]]. now exists post.
      * intros [post E]. inversion E; subst. eauto.
Qed.

Lemma lastChar_snoc pv pre c : lastChar pv (pre ++ [c]) = Some c.
Proof. now rewrite lastChar_app. Qed.

Lemma bol_false_start pre : bol false (lastChar None pre) = true -> pre = [].
Proof.
  destruct pre as [|a pre] using rev_ind; [reflexivity|].
  rewrite lastChar_snoc. discriminate.
Qed.

Lemma test_bracketsStart line :
  test bracketsStartRx line = true <->
  (exists post, line = js "[0:00]" ++ post) \/
  (exists post, line = js "[00:00]" ++ post).
Proof.
  split.
  - unfold test. destruct (exec bracketsStartRx line) as [m|] eqn:E;
      [intros _|discriminate].
    apply exec_sound in E. destruct E as (pre & post & Hs & _ & D).
    change (multiline bracketsStartRx) with false in D.
    cbn [denote rseq source bracketsStartRx] in D.
    destruct D as (w0 & w1 & cs0 & Hw & (-> & Hb & ->) & D).
    apply bol_false_start in Hb. subst pre. rewrite Hw in Hs.
    cbn [app] in Hs. clear Hw.
    destruct D as (w2 & w3 & cs1 & -> & D1 & w4 & w5 & cs2 & -> & D2 & D3).
    apply denote_ch in D1, D3. destruct D1 as [-> _], D3 as [-> _].
    destruct D2 as [D2|D2].
    + destruct D2 as (o & w6 & cs3 & -> & Do & D2).
      denote_atoms. subst.
      destruct Do as [[_ Do]|[-> _]].
      * apply denote_ch in Do. destruct Do as [-> _].
        right. exists post. reflexivity.
      * left. exists post. reflexivity.
    + denote_atoms. subst.
      right. exists post. reflexivity.
  - intros H. destruct (test bracketsStartRx line) eqn:T; [reflexivity|].
    exfalso. apply test_exec in T.
    assert (D0 : forall post, denote false (ch "0") (Some 91) (js "0")
                   post [] []) by (intros; apply denote_ch; auto).
    destruct H as [[post ->]|[post ->]].
    + refine (exec_none bracketsStartRx _ [] (js "[0:00]") post [] T eq_refl _).
      cbn [denote rseq source bracketsStartRx].
      exists [], (js "[0:00]"), []. split; [reflexivity|].
      split; [auto|].
      exists (js "["), (js "0:00]"), []. split; [reflexivity|].
      split; [apply denote_ch; auto|].
      exists (js "0:00"), (js "]"), []. split; [reflexivity|].
      split; [|apply denote_ch; auto].
      left. exists [], (js "0:00"), []. split; [reflexivity|].
      split; [right; auto|].
      exists (js "0"), (js ":00"), []. split; [reflexivity|].
      split; [apply denote_ch; auto|].
      exists (js ":"), (js "00"), []. split; [reflexivity|].
      split; [apply denote_ch; auto|].
      exists (js "0"), (js "0"), []. split; [reflexivity|].
      split; apply denote_ch; auto.
    + refine (exec_none bracketsStartRx _ [] (js "[00:00]") post [] T eq_refl _).
      cbn [denote rseq source bracketsStartRx].
      exists [], (js "[00:00]"), []. split; [reflexivity|].
      split; [auto|].
      exists (js "["), (js "00:00]"), []. split; [reflexivity|].
      split; [apply denote_ch; auto|].
      exists (js "00:00"), (js "]"), []. split; [reflexivity|].
      split; [|apply denote_ch; auto].
      right. exists (js "0"), (js "0:00"), []. split; [reflexivity|].
      split; [apply denote_ch; auto|].
      exists (js "0"), (js ":00"), []. split; [reflexivity|].
      split; [apply denote_ch; auto|].
      exists (js ":"), (js "00"), []. split; [reflexivity|].
      split; [apply denote_ch; auto|].
      exists (js "0"), (js "0"), []. split; [reflexivity|].
      split; apply denote_ch; auto.
Qed.

Lemma test_bracketsStart_startsWith line :
  test bracketsStartRx line
  = startsWith (js "[0:00]") line || startsWith (js "[00:00]") line.
Proof.
  pose proof (test_bracketsStart line) as H.
  rewrite <- !startsWith_spec in H.
  destruct (test bracketsStartRx line);
    destruct (startsWith (js "[0:00]") line);
    destruct (startsWith (js "[00:00]") line); simpl; try reflexivity;
    destruct H as [H1 H2];
    first [destruct (H1 eq_refl); discriminate
          |discriminate (H2 (or_introl eq_refl))
          |discriminate (H2 (or_intror eq_refl))].
Qed.

(** ** The title of a chapter *)

Lemma withoutMatch_app pre w post m :
  matched m = w -> index m = List.length pre ->
  withoutMatch (pre ++ w ++ post) m = pre ++ post.
Proof.
  intros Hw Hi. unfold withoutMatch. rewrite Hw, Hi.
  rewrite firstn_app, Nat.sub_diag, firstn_all. cbn [firstn].
  rewrite app_nil_r. f_equal.
  rewrite skipn_app, skipn_all2 by lia.
  replace (List.length pre + List.length w - List.length pre)%nat
    with (List.length w) by lia.
  rewrite skipn_app, Nat.sub_diag, skipn_all. reflexivity.
Qed.

Lemma rawTitle_found line m :
  exec timestampRegex line = Some m ->
  rawTitle (parseFlexibleTimestamps line)
  = trim (stripOrdinal (withoutMatch line m)).
Proof.
  intros H. unfold parseFlexibleTimestamps. rewrite H. cbn [rawTitle].
  rewrite replace_ordinal. unfold replace_empty. rewrite H. reflexivity.
Qed.

Lemma In_skipn {A} (x : A) k l : In x (skipn k l) -> In x l.
Proof.
  intros H. rewrite <- (firstn_skipn k l). apply in_or_app. now right.
Qed.

Lemma chapters_of_lines startRx lineRx ti xi description c :
  In c (makeChapterParser startRx lineRx ti xi description) ->
  exists line,
    In line (skipEmptyLines description) /\ test lineRx line = true /\
    c = chapterOf line.
Proof.
  destruct (findIndex (test startRx) (skipEmptyLines description)) as [k|] eqn:E.
  - rewrite (makeChapterParser_some _ _ _ _ _ _ E).
    intros H. apply in_map_iff in H. destruct H as (line & <- & H).
    apply filter_In in H. destruct H as [H T].
    exists line. split; [now apply In_skipn in H|auto].
  - unfold makeChapterParser. cbv zeta.
    change (fun line => test startRx line) with (test startRx).
    rewrite E. contradiction.
Qed.

(** C6, as the source has it: once the text of the timestamp is taken
    out of the line, a leading run of one or more digits followed by a
    dot is dropped together with the white space after the dot, if any,
    when the run stands at the very start of what remains, and the
    result is trimmed; every parser built by [makeChapterParser] takes
    its titles this way, whatever its line pattern. *)
Theorem C6_ordinal_prefix_stripped :
  (forall line m,
     exec timestampRegex line = Some m ->
     (exists pre post,
        line = pre ++ matched m ++ post /\ index m = List.length pre /\
        withoutMatch line m = pre ++ post) /\
     rawTitle (parseFlexibleTimestamps line)
       = trim (stripOrdinal (withoutMatch line m)) /\
     title (chapterOf line) = trim (stripOrdinal (withoutMatch line m))) /\
  (forall startRx lineRx timestampIndex textIndex description c,
     In c (makeChapterParser startRx lineRx timestampIndex textIndex
             description) ->
     exists line,
       In line (skipEmptyLines description) /\ c = chapterOf line) /\
  prefixParser (js "1. 0:00 Intro") = [mkChapter 0 (js "Intro")].
Proof.
  split; [|split].
  - intros line m H. split; [|split].
    + destruct (exec_sound _ _ _ H) as (pre & post & Hs & Hi & _).
      exists pre, post. repeat split; try assumption.
      rewrite Hs at 1. now apply withoutMatch_app.
    + now apply rawTitle_found.
    + unfold chapterOf. cbn [title]. rewrite (rawTitle_found _ _ H).
      apply trim_idem.
  - intros startRx lineRx ti xi description c H.
    destruct (chapters_of_lines _ _ _ _ _ _ H) as (line & Hl & _ & Hc).
    eauto.
  - vm_compute. reflexivity.
Qed.

Lemma C6_witness :
  rawTitle (parseFlexibleTimestamps (js "1. 0:00 Intro")) = js "Intro".
Proof.
  rewrite (proj1 (proj2 (proj1 C6_ordinal_prefix_stripped
    (js "1. 0:00 Intro")
    (mkMatch 3 (js "0:00") [(9%nat, js "00"); (8%nat, js "0")]) eq_refl))).
  vm_compute. reflexivity.
Defined.

(** C6 as it was stated fails: in the line "1.Intro 0:00" the digits and
    the dot are not followed by white space, and they are dropped all the
    same. *)
Lemma C6_counterexample :
  exists line m,
    exec timestampRegex line = Some m /\
    withoutMatch line m = js "1.Intro " /\
    rawTitle (parseFlexibleTimestamps line) = js "Intro" /\
    trim (stripOrdinalSpaced (withoutMatch line m)) = js "1.Intro" /\
    parseYouTubeChapters line = [mkChapter 0 (js "Intro")].
Proof.
  exists (js "1.Intro 0:00"),
    (mkMatch 8 (js "0:00") [(9%nat, js "00"); (8%nat, js "0")]).
  repeat split; vm_compute; reflexivity.
Qed.

(** ** The Brackets format *)

Lemma findIndex_ext {A} (p q : A -> bool) l :
  (forall a, p a = q a) -> findIndex p l = findIndex q l.
Proof.
  intros H. induction l as [|a l IH]; simpl; [reflexivity|].
  now rewrite H, IH.
Qed.

(** C7, as the source has it: the Brackets parser starts at the first
    non-empty line, wherever it stands, that begins with "[0:00]" or
    "[00:00]", and returns the empty list when no non-empty line begins
    so. *)
Theorem C7_brackets_start_on_any_line :
  forall description,
    (forall line,
       test bracketsStartRx line
       = startsWith (js "[0:00]") line || startsWith (js "[00:00]") line) /\
    bracketsParser description =
    match
      findIndex
        (fun line =>
           startsWith (js "[0:00]") line || startsWith (js "[00:00]") line)
        (skipEmptyLines description)
    with
    | None => []
    | Some k =>
        List.map chapterOf
          (filter (test bracketsLineRx)
             (skipn k (skipEmptyLines description)))
    end.
Proof.
  intros description. split; [apply test_bracketsStart_startsWith|].
  rewrite <- (findIndex_ext (test bracketsStartRx))
    by apply test_bracketsStart_startsWith.
  destruct (findIndex (test bracketsStartRx) (skipEmptyLines description))
    as [k|] eqn:E.
  - now apply makeChapterParser_some.
  - unfold bracketsParser, makeChapterParser. cbv zeta.
    change (fun line => test bracketsStartRx line) with (test bracketsStartRx).
    now rewrite E.
Qed.

(** C7 as it was stated fails: the first non-empty line below does not
    match the start pattern, a later line does, and the parser returns
    chapters. *)
Lemma C7_counterexample :
  exists description line others,
    skipEmptyLines description = line :: others /\
    test bracketsStartRx line = false /\
    bracketsParser description
      = [mkChapter 0 (js "Start"); mkChapter 90 (js "Middle")] /\
    parseYouTubeChapters description
      = [mkChapter 0 (js "Start"); mkChapter 90 (js "Middle")].
Proof.
  exists (js "Welcome" ++ [LF] ++ js "[0:00] Start" ++ [LF]
          ++ js "[01:30] Middle"),
    (js "Welcome"), [js "[0:00] Start"; js "[01:30] Middle"].
  repeat split; vm_compute; reflexivity.
Qed.

(** ** The timestamp the extractor uses *)



(** ** The calls leave no trace *)

Lemma execS_pure o s h :
  global (regexp o) = false -> sticky (regexp o) = false ->
  execS o s h = (exec (regexp o) s, h).
Proof.
  intros Hg Hy. unfold execS, builtinExec. rewrite Hg, Hy. cbn.
  fold (exec (regexp o) s). now destruct (exec (regexp o) s).
Qed.

Lemma testS_pure o s h :
  global (regexp o) = false -> sticky (regexp o) = false ->
  testS o s h = (test (regexp o) s, h).
Proof.
  intros Hg Hy. unfold testS, bind. now rewrite execS_pure.
Qed.

Lemma findIndexS_pure {A} (p : A -> State bool) (q : A -> bool) :
  (forall a h, p a h = (q a, h)) ->
  forall l h, findIndexS p l h = (findIndex q l, h).
Proof.
  intros H. induction l as [|a l IH]; intros h; simpl; [reflexivity|].
  unfold bind. rewrite H. destruct (q a); [reflexivity|]. now rewrite IH.
Qed.

Lemma chapterLoopS_pure lineRx :
  global (regexp lineRx) = false -> sticky (regexp lineRx) = false ->
  forall chapterLines chapters h,
    chapterLoopS lineRx chapterLines chapters h
    = (chapterLoop (regexp lineRx) chapterLines chapters, h).
Proof.
  intros Hg Hy. induction chapterLines as [|line lines IH];
    intros chapters h; simpl; [reflexivity|].
  unfold bind. rewrite execS_pure by assumption.
  destruct (exec (regexp lineRx) line); apply IH.
Qed.

Lemma makeChapterParserS_pure startRx lineRx ti xi description h :
  global (regexp startRx) = false -> sticky (regexp startRx) = false ->
  global (regexp lineRx) = false -> sticky (regexp lineRx) = false ->
  makeChapterParserS startRx lineRx ti xi description h
  = (makeChapterParser (regexp startRx) (regexp lineRx) ti xi description, h).
Proof.
  intros Hg Hy Hg' Hy'. unfold makeChapterParserS, makeChapterParser, bind.
  cbv zeta.
  rewrite (findIndexS_pure _ (fun line => test (regexp startRx) line))
    by (intros; now apply testS_pure).
  destruct (findIndex _ _); [|reflexivity].
  now apply chapterLoopS_pure.
Qed.

Lemma stepS_pure (pS : jsstring -> State (list Chapter))
    (p : jsstring -> list Chapter) chapters description h :
  (forall h, pS description h = (p description, h)) ->
  (if isEmpty chapters then pS description else ret chapters) h
  = (if isEmpty chapters then p description else chapters, h).
Proof. intros H. destruct (isEmpty chapters); [apply H|reflexivity]. Qed.

Lemma parseYouTubeChaptersS_pure description h :
  parseYouTubeChaptersS description h = (parseYouTubeChapters description, h).
Proof.
  unfold parseYouTubeChaptersS, parseYouTubeChapters, bind.
  unfold lawfulParserS at 1.
  rewrite makeChapterParserS_pure by reflexivity. cbv beta iota zeta.
  rewrite (stepS_pure bracketsParserS bracketsParser)
    by (intros; apply makeChapterParserS_pure; reflexivity).
  rewrite (stepS_pure parensParserS parensParser)
    by (intros; apply makeChapterParserS_pure; reflexivity).
  rewrite (stepS_pure postfixParserS postfixParser)
    by (intros; apply makeChapterParserS_pure; reflexivity).
  rewrite (stepS_pure postfixParenParserS postfixParenParser)
    by (intros; apply makeChapterParserS_pure; reflexivity).
  rewrite (stepS_pure prefixParserS prefixParser)
    by (intros; apply makeChapterParserS_pure; reflexivity).
  reflexivity.
Qed.

(** C8: whatever the [lastIndex] of the RegExp objects holds when
    [parseYouTubeChapters] is called, the call returns the list that the
    description alone determines and leaves every [lastIndex] as it was;
    so two calls on the same description, in whatever states, return
    lists of the same length with the same start and title at every
    position. *)
Theorem C8_deterministic_and_stateless :
  forall description h1 h2,
    let r1 := fst (parseYouTubeChaptersS description h1) in
    let r2 := fst (parseYouTubeChaptersS description h2) in
    r1 = parseYouTubeChapters description /\
    snd (parseYouTubeChaptersS description h1) = h1 /\
    r2 = fst (parseYouTubeChaptersS description
                (snd (parseYouTubeChaptersS description h1))) /\
    List.length r1 = List.length r2 /\
    (forall i c1 c2,
       nth_error r1 i = Some c1 -> nth_error r2 i = Some c2 ->
       start c1 = start c2 /\ title c1 = title c2).
Proof.
  intros description h1 h2 r1 r2. subst r1 r2.
  repeat (rewrite parseYouTubeChaptersS_pure; cbn [fst snd]).
  repeat split; try reflexivity; congruence.
Qed.

(** ** Carriage returns *)

Lemma split_no_sep sep : forall s, ~ In sep s -> split sep s = [s].
Proof.
  induction s as [|c s IH]; intros H; simpl; [reflexivity|].
  unfold char_eqb. destruct (N.eqb_spec c sep) as [->|_].
  - exfalso. apply H. now left.
  - rewrite IH; [reflexivity|]. intros Hs. apply H. now right.
Qed.

Lemma split_crlf : forall lines,
  (forall l, In l lines -> ~ In LF l) ->
  split LF (concat (List.map (fun l => l ++ [CR; LF]) lines))
  = List.map (fun l => l ++ [CR]) lines ++ [[]].
Proof.
  induction lines as [|l lines IH]; intros H; [reflexivity|].
  cbn [List.map concat].
  replace ((l ++ [CR; LF]) ++ concat (List.map (fun l => l ++ [CR; LF]) lines))
    with ((l ++ [CR]) ++ LF :: concat (List.map (fun l => l ++ [CR; LF]) lines))
    by (rewrite <- !app_assoc; reflexivity).
  rewrite split_app, IH by (intros; apply H; now right).
  rewrite split_no_sep; [reflexivity|].
  intros Hin. apply in_app_or in Hin. destruct Hin as [Hin|[Hin|[]]].
  - now apply (H l (or_introl eq_refl)).
  - discriminate.
Qed.

Lemma eol_false_end post : eol false post = true -> post = [].
Proof. destruct post; [reflexivity|discriminate]. Qed.

(** A line that ends with a carriage return is not matched by the line
    pattern of the Postfix format, which ends with digits and [$]. *)
Lemma postfix_rejects_cr line : exec postfixRx (line ++ [CR]) = None.
Proof.
  destruct (exec postfixRx (line ++ [CR])) as [m|] eqn:E; [|reflexivity].
  exfalso. apply exec_sound in E. destruct E as (pre & post & Hs & _ & D).
  change (multiline postfixRx) with false in D.
  cbn [denote rseq source postfixRx] in D.
  destruct D as (w0 & w1 & cs0 & Hw & _ & wo & w2 & cs1 & -> & _
                 & wg & w3 & cs2 & -> & _ & wsp & w4 & cs3 & -> & _
                 & wt & we & cs4 & -> & Dt & -> & He & _).
  apply eol_false_end in He. subst post.
  apply denote_hms in Dt.
  destruct Dt as (h & mm & ss & _ & _ & Hss & -> & _).
  destruct (digits_last _ Hss) as (s0 & d & -> & Hd).
  destruct (hmsText_core h mm (s0 ++ [d])) as [A EA].
  rewrite Hw, EA in Hs.
  assert (exists X, line ++ [CR] = X ++ [d]) as [X EX].
  { rewrite Hs. eexists. rewrite !app_nil_r. rewrite !app_assoc. reflexivity. }
  apply app_inj_tail in EX. destruct EX as [_ <-]. discriminate.
Qed.

(** Nor by that of the Postfix-Paren format, which ends with [)] and
    [$]. *)
Lemma postfixParen_rejects_cr line : exec postfixParenRx (line ++ [CR]) = None.
Proof.
  destruct (exec postfixParenRx (line ++ [CR])) as [m|] eqn:E; [|reflexivity].
  exfalso. apply exec_sound in E. destruct E as (pre & post & Hs & _ & D).
  change (multiline postfixParenRx) with false in D.
  cbn [denote rseq source postfixParenRx] in D.
  destruct D as (w0 & w1 & cs0 & Hw & _ & wo & w2 & cs1 & -> & _
                 & wg & w3 & cs2 & -> & _ & wsp & w4 & cs3 & -> & _
                 & wp & w5 & cs4 & -> & _ & ws1 & w6 & cs5 & -> & _
                 & wt & w7 & cs6 & -> & _ & ws2 & w8 & cs7 & -> & _
                 & wc & we & cs8 & -> & Dc & -> & He & _).
  apply eol_false_end in He. subst post.
  apply denote_ch in Dc. destruct Dc as [-> _].
  rewrite Hw in Hs.
  assert (exists X, line ++ [CR] = X ++ [N_of_ascii ")"]) as [X EX].
  { rewrite Hs. eexists. rewrite !app_nil_r. rewrite !app_assoc. reflexivity. }
  apply app_inj_tail in EX. destruct EX as [_ EX]. discriminate.
Qed.

Lemma crlf_lines_end_cr lines line :
  (forall l, In l lines -> ~ In LF l) ->
  In line
    (skipEmptyLines (concat (List.map (fun l => l ++ [CR; LF]) lines))) ->
  exists l, line = l ++ [CR].
Proof.
  intros H Hin. unfold skipEmptyLines in Hin. rewrite split_crlf in Hin by exact H.
  apply filter_In in Hin. destruct Hin as [Hin Hne].
  apply in_app_or in Hin. destruct Hin as [Hin|[<-|[]]].
  - apply in_map_iff in Hin. destruct Hin as (l & <- & _). now exists l.
  - discriminate.
Qed.

Lemma makeChapterParser_no_line startRx lineRx ti xi description :
  (forall line, In line (skipEmptyLines description) ->
     test lineRx line = false) ->
  makeChapterParser startRx lineRx ti xi description = [].
Proof.
  intros H.
  destruct (findIndex (test startRx) (skipEmptyLines description)) as [k|] eqn:E.
  - rewrite (makeChapterParser_some _ _ _ _ _ _ E).
    rewrite filter_none; [reflexivity|].
    intros a Ha. apply H. now apply In_skipn in Ha.
  - unfold makeChapterParser. cbv zeta.
    change (fun line => test startRx line) with (test startRx).
    now rewrite E.
Qed.




(** * Further properties of the program *)

(** ** The line normalizer *)

Lemma split_join sep : forall ls,
  ls <> [] -> (forall l, In l ls -> ~ In sep l) ->
  split sep (join sep ls) = ls.
Proof.
  induction ls as [|l ls IH]; intros Hne H; [contradiction|].
  destruct ls as [|l2 ls].
  - simpl. apply split_no_sep. apply H. now left.
  - change (join sep (l :: l2 :: ls)) with (l ++ sep :: join sep (l2 :: ls)).
    rewrite split_app, IH; [|discriminate|intros; apply H; now right].
    rewrite split_no_sep; [reflexivity|]. apply H. now left.
Qed.

Lemma join_split sep : forall s, join sep (split sep s) = s.
Proof.
  induction s as [|c s IH]; [reflexivity|].
  simpl. pose proof (split_nonempty sep s) as Hne.
  unfold char_eqb. destruct (N.eqb_spec c sep) as [->|_].
  - destruct (split sep s) as [|x xs]; [contradiction|].
    change (join sep ([] :: x :: xs)) with ([] ++ sep :: join sep (x :: xs)).
    now rewrite IH.
  - destruct (split sep s) as [|x xs]; [contradiction|].
    destruct xs as [|y ys].
    + simpl in *. now rewrite IH.
    + change (join sep ((c :: x) :: y :: ys))
        with (c :: (x ++ sep :: join sep (y :: ys))).
      change (join sep (x :: y :: ys)) with (x ++ sep :: join sep (y :: ys)) in IH.
      now rewrite IH.
Qed.

Lemma split_pieces_no_sep sep : forall s line,
  In line (split sep s) -> ~ In sep line.
Proof.
  induction s as [|c s IH]; intros line H; simpl in H.
  - destruct H as [<-|[]]. auto.
  - unfold char_eqb in H. destruct (N.eqb_spec c sep) as [->|Hc].
    + destruct H as [<-|H]; [auto|now apply IH].
    + destruct (split sep s) as [|x xs].
      * destruct H as [<-|[]]. intros [->|[]]. now apply Hc.
      * destruct H as [<-|H].
        -- intros [->|Hin]; [now apply Hc|].
           now apply (IH x (or_introl eq_refl)).
        -- apply IH. now right.
Qed.

Lemma join_In sep : forall ls line,
  In line ls -> exists pre post, join sep ls = pre ++ line ++ post.
Proof.
  induction ls as [|l ls IH]; intros line H; [contradiction|].
  destruct ls as [|l2 ls].
  - destruct H as [<-|[]]. exists [], []. simpl. now rewrite app_nil_r.
  - change (join sep (l :: l2 :: ls)) with (l ++ sep :: join sep (l2 :: ls)).
    destruct H as [<-|H].
    + now exists [], (sep :: join sep (l2 :: ls)).
    + destruct (IH line H) as (pre & post & ->).
      exists (l ++ sep :: pre), post. now rewrite <- app_assoc.
Qed.

Lemma split_pieces sep s line :
  In line (split sep s) ->
  ~ In sep line /\ exists pre post, s = pre ++ line ++ post.
Proof.
  intros H. split; [now apply split_pieces_no_sep in H|].
  destruct (join_In sep _ _ H) as (pre & post & E).
  rewrite join_split in E. eauto.
Qed.

Lemma trimStart_blank s : blank s -> trimStart s = [].
Proof.
  induction s as [|c s IH]; intros H; [reflexivity|].
  inversion H as [|? ? Hc Hs]; subst. simpl. rewrite Hc. now apply IH.
Qed.

Lemma nonEmpty_blank s : blank s -> nonEmpty s = false.
Proof. intros H. unfold nonEmpty, trim. now rewrite trimStart_blank. Qed.

Lemma trimStart_split s :
  exists x, s = x ++ trimStart s /\ blank x.
Proof.
  induction s as [|c s (x & IH & Hx)]; simpl; [exists []; split; [auto|constructor]|].
  destruct (is_white_space c) eqn:E.
  - exists (c :: x). split; [simpl; now f_equal|now constructor].
  - exists []. split; [reflexivity|constructor].
Qed.

Lemma nonEmpty_has_char s :
  nonEmpty s = true -> exists c, In c s /\ is_white_space c = false.
Proof.
  unfold nonEmpty, trim. intros H.
  destruct (trimStart_split s) as (x & Es & _).
  pose proof (trimStart_headNot s) as Hh.
  destruct (trimStart s) as [|c t]; [discriminate|].
  exists c. split; [|exact Hh]. rewrite Es. apply in_or_app. right. now left.
Qed.

Lemma skipEmptyLines_join lines :
  (forall l, In l lines -> ~ In LF l) ->
  skipEmptyLines (join LF lines) = filter nonEmpty lines.
Proof.
  intros H. unfold skipEmptyLines. destruct lines as [|l ls]; [reflexivity|].
  now rewrite split_join.
Qed.

Lemma skipEmptyLines_blank d : blank d -> skipEmptyLines d = [].
Proof.
  intros H. unfold skipEmptyLines. apply filter_none. intros line Hin.
  apply nonEmpty_blank. destruct (split_pieces LF d line Hin) as (_ & pre & post & E).
  unfold blank in *. rewrite E in H.
  apply Forall_app in H. destruct H as [_ H]. apply Forall_app in H. tauto.
Qed.

Lemma makeChapterParser_ext startRx lineRx ti xi d d' :
  skipEmptyLines d = skipEmptyLines d' ->
  makeChapterParser startRx lineRx ti xi d
  = makeChapterParser startRx lineRx ti xi d'.
Proof. intros H. unfold makeChapterParser. cbv zeta. now rewrite H. Qed.

Lemma parseYouTubeChapters_ext d d' :
  skipEmptyLines d = skipEmptyLines d' ->
  parseYouTubeChapters d = parseYouTubeChapters d'.
Proof.
  intros H. unfold parseYouTubeChapters, lawfulParser, bracketsParser,
    parensParser, postfixParser, postfixParenParser, prefixParser.
  now rewrite !(makeChapterParser_ext _ _ _ _ d d' H).
Qed.

Lemma parseYouTubeChapters_no_lines d :
  skipEmptyLines d = [] -> parseYouTubeChapters d = [].
Proof.
  intros H. unfold parseYouTubeChapters, lawfulParser, bracketsParser,
    parensParser, postfixParser, postfixParenParser, prefixParser,
    makeChapterParser. cbv zeta. rewrite H. reflexivity.
Qed.

(** X1: the line normalizer returns, in order, exactly the lines that
    hold a character other than white space: for lines without LF joined
    by LF it gives back those lines with the blank ones left out. *)
Theorem X1_skipEmptyLines_of_joined_lines :
  forall lines,
    (forall l, In l lines -> ~ In LF l) ->
    skipEmptyLines (join LF lines) = filter nonEmpty lines /\
    ((forall l, In l lines -> nonEmpty l = true) ->
     skipEmptyLines (join LF lines) = lines).
Proof.
  intros lines H. split; [|intros Hall]; rewrite skipEmptyLines_join by exact H.
  - reflexivity.
  - induction lines as [|l ls IH]; [reflexivity|]. simpl.
    rewrite (Hall l (or_introl eq_refl)). f_equal. apply IH.
    + intros; apply H; now right.
    + intros; apply Hall; now right.
Qed.

Lemma X1_witness :
  skipEmptyLines (join LF [js "0:00 Intro"; js "  "; js "1:30 Next"])
  = filter nonEmpty [js "0:00 Intro"; js "  "; js "1:30 Next"].
Proof.
  apply X1_skipEmptyLines_of_joined_lines.
  intros l [<-|[<-|[<-|[]]]] H; vm_compute in H; intuition discriminate.
Defined.

(** X2: every line the normalizer returns is a piece of the description
    that holds no LF and at least one character other than white
    space. *)
Theorem X2_skipEmptyLines_lines :
  forall description line,
    In line (skipEmptyLines description) ->
    ~ In LF line /\
    (exists c, In c line /\ is_white_space c = false) /\
    (exists pre post, description = pre ++ line ++ post).
Proof.
  intros description line H. unfold skipEmptyLines in H.
  apply filter_In in H. destruct H as [Hin Hne].
  destruct (split_pieces LF description line Hin) as [Hn Hs].
  split; [exact Hn|]. split; [now apply nonEmpty_has_char|exact Hs].
Qed.

Lemma X2_witness :
  ~ In LF (js "1:30 Next") /\
  (exists c, In c (js "1:30 Next") /\ is_white_space c = false) /\
  (exists pre post,
     js "0:00 Intro" ++ [LF] ++ js "1:30 Next" ++ [LF]
     = pre ++ js "1:30 Next" ++ post).
Proof.
  apply (X2_skipEmptyLines_lines
           (js "0:00 Intro" ++ [LF] ++ js "1:30 Next" ++ [LF])).
  vm_compute. right. left. reflexivity.
Defined.

(** X3: a description made of white space only, the empty description
    included, has no line for the parsers: every parser built by
    [makeChapterParser] and [parseYouTubeChapters] return the empty
    list. *)
Theorem X3_blank_description_no_chapters :
  forall description,
    blank description ->
    skipEmptyLines description = [] /\
    (forall startRx lineRx timestampIndex textIndex,
       makeChapterParser startRx lineRx timestampIndex textIndex description
       = []) /\
    parseYouTubeChapters description = [].
Proof.
  intros description H. pose proof (skipEmptyLines_blank _ H) as E.
  split; [exact E|]. split.
  - intros. unfold makeChapterParser. cbv zeta. now rewrite E.
  - now apply parseYouTubeChapters_no_lines.
Qed.

Lemma X3_witness :
  parseYouTubeChapters ([LF; CR; LF] ++ js "   " ++ [LF]) = [] /\
  parseYouTubeChapters [] = [].
Proof.
  split.
  - apply (X3_blank_description_no_chapters ([LF; CR; LF] ++ js "   " ++ [LF])).
    repeat constructor.
  - apply (X3_blank_description_no_chapters []). constructor.
Defined.

(** X4: white space standing as lines of its own between two parts of a
    description changes nothing: the normalizer returns the same lines,
    and so do every parser built by [makeChapterParser] and
    [parseYouTubeChapters] return the same chapters. *)
Theorem X4_blank_lines_ignored :
  forall before blanks after,
    blank blanks ->
    skipEmptyLines (before ++ LF :: blanks ++ LF :: after)
      = skipEmptyLines (before ++ LF :: after) /\
    (forall startRx lineRx timestampIndex textIndex,
       makeChapterParser startRx lineRx timestampIndex textIndex
         (before ++ LF :: blanks ++ LF :: after)
       = makeChapterParser startRx lineRx timestampIndex textIndex
           (before ++ LF :: after)) /\
    parseYouTubeChapters (before ++ LF :: blanks ++ LF :: after)
      = parseYouTubeChapters (before ++ LF :: after).
Proof.
  intros before blanks after H.
  assert (E : skipEmptyLines (before ++ LF :: blanks ++ LF :: after)
              = skipEmptyLines (before ++ LF :: after)).
  { rewrite !skipEmptyLines_app, (skipEmptyLines_blank _ H). reflexivity. }
  split; [exact E|]. split.
  - intros. now apply makeChapterParser_ext.
  - now apply parseYouTubeChapters_ext.
Qed.

Lemma X4_witness :
  parseYouTubeChapters
    (js "0:00 Intro" ++ LF :: (js "  " ++ [LF; CR]) ++ LF :: js "1:30 Next")
  = parseYouTubeChapters (js "0:00 Intro" ++ LF :: js "1:30 Next").
Proof.
  apply (X4_blank_lines_ignored (js "0:00 Intro") (js "  " ++ [LF; CR])
           (js "1:30 Next")).
  repeat constructor.
Defined.

Lemma findIndex_app_none {A} (p : A -> bool) l1 l2 :
  (forall a, In a l1 -> p a = false) ->
  findIndex p (l1 ++ l2)
  = match findIndex p l2 with
    | Some k => Some (List.length l1 + k)%nat
    | None => None
    end.
Proof.
  induction l1 as [|a l1 IH]; intros H; simpl.
  - now destruct (findIndex p l2).
  - rewrite (H a (or_introl eq_refl)), IH by (intros; apply H; now right).
    now destruct (findIndex p l2).
Qed.

Lemma skipn_app_length {A} (l1 l2 : list A) k :
  skipn (List.length l1 + k) (l1 ++ l2) = skipn k l2.
Proof.
  rewrite skipn_app, skipn_all2 by lia.
  replace (List.length l1 + k - List.length l1)%nat with k by lia.
  reflexivity.
Qed.

Lemma makeChapterParser_preamble startRx lineRx ti xi preamble description :
  (forall line, In line (skipEmptyLines preamble) ->
     test startRx line = false) ->
  makeChapterParser startRx lineRx ti xi (preamble ++ LF :: description)
  = makeChapterParser startRx lineRx ti xi description.
Proof.
  intros H. unfold makeChapterParser. cbv zeta.
  change (fun line => test startRx line) with (test startRx).
  rewrite skipEmptyLines_app, (findIndex_app_none _ _ _ H).
  destruct (findIndex (test startRx) (skipEmptyLines description));
    [|reflexivity].
  now rewrite skipn_app_length.
Qed.

(** X5: text before the chapter list is passed over: when no non-empty
    line of the preamble matches the start pattern, the parser returns
    for preamble, LF and description what it returns for the description
    alone; and [parseYouTubeChapters] does so when the preamble's lines
    match none of the six start patterns. *)
Theorem X5_preamble_ignored :
  (forall startRx lineRx timestampIndex textIndex preamble description,
     (forall line, In line (skipEmptyLines preamble) ->
        test startRx line = false) ->
     makeChapterParser startRx lineRx timestampIndex textIndex
       (preamble ++ LF :: description)
     = makeChapterParser startRx lineRx timestampIndex textIndex
         description) /\
  (forall preamble description,
     (forall f line, In line (skipEmptyLines preamble) ->
        test (startRxOf f) line = false) ->
     parseYouTubeChapters (preamble ++ LF :: description)
     = parseYouTubeChapters description).
Proof.
  split.
  - intros. now apply makeChapterParser_preamble.
  - intros preamble description H.
    unfold parseYouTubeChapters, lawfulParser, bracketsParser, parensParser,
      postfixParser, postfixParenParser, prefixParser.
    rewrite (makeChapterParser_preamble lawfulStartRx) by apply (H Lawful).
    rewrite (makeChapterParser_preamble bracketsStartRx) by apply (H Brackets).
    rewrite (makeChapterParser_preamble parensStartRx) by apply (H Parens).
    rewrite (makeChapterParser_preamble (addM postfixRx)) by apply (H Postfix).
    rewrite (makeChapterParser_preamble (addM postfixParenRx))
      by apply (H PostfixParen).
    rewrite (makeChapterParser_preamble (addM prefixRx)) by apply (H Prefix).
    reflexivity.
Qed.

Lemma X5_witness :
  parseYouTubeChapters
    (js "Welcome to the show" ++ LF :: js "0:00 Intro" ++ LF :: js "1:30 Next")
  = parseYouTubeChapters (js "0:00 Intro" ++ LF :: js "1:30 Next").
Proof.
  apply (proj2 X5_preamble_ignored (js "Welcome to the show")).
  intros f line H. vm_compute in H. destruct H as [<-|[]].
  destruct f; vm_compute; reflexivity.
Defined.

(** ** The [m] flag *)

Lemma has_flag_app f a b :
  has_flag f (a ++ b)%string = has_flag f a || has_flag f b.
Proof.
  induction a as [|c a IH]; simpl; [reflexivity|].
  now rewrite IH, orb_assoc.
Qed.

Lemma addM_spec R :
  multiline (addM R) = true /\
  source (addM R) = source R /\
  (forall f, f <> "m"%char ->
     has_flag f (flags (addM R)) = has_flag f (flags R)) /\
  (multiline R = true -> addM R = R) /\
  addM (addM R) = addM R.
Proof.
  unfold addM, multiline.
  destruct (has_flag "m" (flags R)) eqn:E; cbn [negb].
  - rewrite E. cbn [negb]. repeat split; auto.
  - cbn [flags source]. rewrite !has_flag_app, E. cbn.
    split; [reflexivity|]. split; [reflexivity|].
    split; [|split; [discriminate|reflexivity]].
    intros f Hf. rewrite has_flag_app. cbn [has_flag].
    destruct (Ascii.eqb "m" f) eqn:Em.
    + apply Ascii.eqb_eq in Em. now subst.
    + cbn. apply orb_false_r.
Qed.

(** X6: [addM] returns a pattern with the [m] flag and the same source;
    it changes no other flag, returns a pattern that has the flag as it
    is, and applying it twice is applying it once. *)
Theorem X6_addM_sets_only_m :
  forall R,
    multiline (addM R) = true /\
    source (addM R) = source R /\
    (forall f, f <> "m"%char ->
       has_flag f (flags (addM R)) = has_flag f (flags R)) /\
    (multiline R = true -> addM R = R) /\
    addM (addM R) = addM R.
Proof. exact addM_spec. Qed.

Lemma star_cont_ext k g : forall s p pv cs c c',
  noLineTerminator s -> okPrev pv ->
  (forall y, noLineTerminator (rest y) -> okPrev (prev y) -> c y = c' y) ->
  star k g p pv s cs c = star k g p pv s cs c'.
Proof.
  induction s as [|a s IH]; intros p pv cs c c' Hs Hp Hc; simpl.
  - apply Hc; [constructor|exact Hp].
  - inversion Hs as [|? ? Ha Hs']; subst.
    assert (E0 : c (MState p pv (a :: s) cs) = c' (MState p pv (a :: s) cs))
      by (apply Hc; assumption).
    assert (E1 : star k g (S p) (Some a) s cs c
                 = star k g (S p) (Some a) s cs c')
      by (apply IH; assumption).
    destruct (cmatch k a); [|exact E0]. destruct g; now rewrite E0, E1.
Qed.

(** On a text without line terminators the [m] flag changes nothing. *)
Lemma rmatch_ml_irrelevant r : forall p pv s cs c c',
  noLineTerminator s -> okPrev pv ->
  (forall y, noLineTerminator (rest y) -> okPrev (prev y) -> c y = c' y) ->
  rmatch true r (MState p pv s cs) c = rmatch false r (MState p pv s cs) c'.
Proof.
  induction r; intros p pv s cs c c' Hs Hp Hc; simpl.
  - now apply Hc.
  - destruct s as [|a s]; [reflexivity|].
    inversion Hs; subst. destruct (cmatch k a); [|reflexivity].
    now apply Hc.
  - unfold at_bol; simpl. destruct pv as [a|]; [|now apply Hc].
    simpl in Hp. rewrite Hp. reflexivity.
  - unfold at_eol; simpl. destruct s as [|a s]; [now apply Hc|].
    inversion Hs as [|? ? Ha _]; subst. rewrite Ha. reflexivity.
  - apply IHr1; try assumption. intros [p' pv' s' cs'] Hs' Hp'.
    now apply IHr2.
  - rewrite (IHr1 p pv s cs c c'), (IHr2 p pv s cs c c') by assumption.
    reflexivity.
  - apply IHr; try assumption. intros y Hy Hpy. now apply Hc.
  - rewrite (Hc (MState p pv s cs)) by assumption.
    rewrite (IHr p pv s cs _
               (fun y => if Nat.eqb (pos y) p then None else c' y));
      [reflexivity|assumption|assumption|].
    intros y Hy Hpy. simpl. destruct (Nat.eqb (pos y) p); [reflexivity|].
    now apply Hc.
  - now apply star_cont_ext.
Qed.

Lemma scan_ml_irrelevant r : forall s p pv,
  noLineTerminator s -> okPrev pv ->
  scan true r p pv s = scan false r p pv s.
Proof.
  induction s as [|a s IH]; intros p pv Hs Hp; simpl;
    rewrite (rmatch_ml_irrelevant r p pv _ [] _ (fun y => Some y))
      by (try assumption; reflexivity);
    [reflexivity|].
  inversion Hs; subst.
  destruct (rmatch false r _ _); [reflexivity|]. now apply IH.
Qed.

Lemma exec_addM R s : noLineTerminator s -> exec (addM R) s = exec R s.
Proof.
  intros Hs. destruct (addM_spec R) as (Hm & Hsrc & _ & Hid & _).
  destruct (multiline R) eqn:E; [now rewrite Hid|].
  unfold exec. rewrite Hm, Hsrc, E. now apply scan_ml_irrelevant.
Qed.

Lemma findIndex_ext_in {A} (p q : A -> bool) l :
  (forall a, In a l -> p a = q a) -> findIndex p l = findIndex q l.
Proof.
  induction l as [|a l IH]; intros H; simpl; [reflexivity|].
  rewrite (H a (or_introl eq_refl)), IH by (intros; apply H; now right).
  reflexivity.
Qed.

Lemma filter_from_findIndex {A} (p : A -> bool) : forall l,
  filter p l
  = match findIndex p l with
    | Some k => filter p (skipn k l)
    | None => []
    end.
Proof.
  induction l as [|a l IH]; simpl; [reflexivity|].
  destruct (p a) eqn:Ha; [simpl; now rewrite Ha|].
  rewrite IH. now destruct (findIndex p l).
Qed.

Lemma skipEmptyLines_noLineTerminator description line :
  (forall c, In c description -> is_line_terminator c = true -> c = LF) ->
  In line (skipEmptyLines description) -> noLineTerminator line.
Proof.
  intros H Hin. unfold skipEmptyLines in Hin. apply filter_In in Hin.
  destruct Hin as [Hin _].
  destruct (split_pieces LF description line Hin) as (Hn & pre & post & E).
  apply Forall_forall. intros c Hc.
  destruct (is_line_terminator c) eqn:T; [|reflexivity].
  exfalso. apply Hn. rewrite <- (H c); [exact Hc| |exact T].
  rewrite E. apply in_or_app. right. apply in_or_app. now left.
Qed.

Lemma makeChapterParser_addM lineRx ti xi description :
  (forall c, In c description -> is_line_terminator c = true -> c = LF) ->
  makeChapterParser (addM lineRx) lineRx ti xi description
  = List.map chapterOf (filter (test lineRx) (skipEmptyLines description)).
Proof.
  intros H. unfold makeChapterParser. cbv zeta.
  rewrite (findIndex_ext_in _ (test lineRx)).
  - rewrite (filter_from_findIndex (test lineRx)).
    destruct (findIndex (test lineRx) (skipEmptyLines description));
      [|reflexivity].
    apply chapterLoop_spec.
  - intros line Hin. unfold test. rewrite exec_addM; [reflexivity|].
    now apply (skipEmptyLines_noLineTerminator description).
Qed.

(** X7: for the Postfix, Postfix-Paren and Prefix formats the start
    pattern is the line pattern with the [m] flag added, and on a line
    without line terminator the two accept the same lines; so on a
    description whose only line terminators are LF these parsers return
    the chapters of all the non-empty lines that match the line pattern,
    in order. *)
Theorem X7_same_pattern_formats :
  forall f,
    f = Postfix \/ f = PostfixParen \/ f = Prefix ->
    startRxOf f = addM (lineRxOf f) /\
    (forall line,
       noLineTerminator line ->
       test (startRxOf f) line = test (lineRxOf f) line) /\
    (forall description,
       (forall c, In c description -> is_line_terminator c = true -> c = LF) ->
       parserOf f description
       = List.map chapterOf
           (filter (test (lineRxOf f)) (skipEmptyLines description))).
Proof.
  intros f Hf.
  assert (E : startRxOf f = addM (lineRxOf f))
    by (destruct Hf as [-> | [-> | ->]]; reflexivity).
  split; [exact E|]. split.
  - intros line Hl. rewrite E. unfold test. now rewrite exec_addM.
  - intros description H.
    destruct Hf as [-> | [-> | ->]]; now apply makeChapterParser_addM.
Qed.

Lemma X7_witness :
  postfixParser (js "Intro 0:00" ++ [LF] ++ js "(music)" ++ [LF]
                 ++ js "Middle Bit 1:30")
  = List.map chapterOf
      (filter (test postfixRx)
         (skipEmptyLines (js "Intro 0:00" ++ [LF] ++ js "(music)" ++ [LF]
                          ++ js "Middle Bit 1:30"))).
Proof.
  apply (proj2 (proj2 (X7_same_pattern_formats Postfix (or_introl eq_refl)))).
  intros c Hc T. vm_compute in Hc.
  repeat (destruct Hc as [<-|Hc]; [first [reflexivity|discriminate T]|]).
  contradiction.
Defined.

(** ** Trimming and numbers *)

Lemma trimEnd_split t : exists x, t = trimEnd t ++ x /\ blank x.
Proof.
  unfold trimEnd. destruct (trimStart_split (rev t)) as (x & E & Hx).
  exists (rev x). split.
  - rewrite <- rev_app_distr, <- E. now rewrite rev_involutive.
  - unfold blank in *. now apply Forall_rev.
Qed.

Lemma trim_spec s :
  (exists a b, s = a ++ trim s ++ b /\ blank a /\ blank b) /\
  headNot is_white_space (trim s) /\
  headNot is_white_space (rev (trim s)).
Proof.
  split; [|split].
  - destruct (trimStart_split s) as (a & Ea & Ha).
    destruct (trimEnd_split (trimStart s)) as (b & Eb & Hb).
    exists a, b. unfold trim. now rewrite <- Eb.
  - unfold trim. apply trimEnd_headNot, trimStart_headNot.
  - unfold trim, trimEnd. rewrite rev_involutive. apply trimStart_headNot.
Qed.

(** X8: when the extractor finds a timestamp, the title it returns is
    what remains of the line once the timestamp and the ordinal prefix
    are taken out, less the white space at its two ends and nothing
    else: it neither starts nor ends with white space. *)
Theorem X8_extractor_title_is_trimmed_remainder :
  forall line m,
    exec timestampRegex line = Some m ->
    let t := rawTitle (parseFlexibleTimestamps line) in
    (exists a b,
       stripOrdinal (withoutMatch line m) = a ++ t ++ b /\
       blank a /\ blank b) /\
    headNot is_white_space t /\
    headNot is_white_space (rev t).
Proof.
  intros line m H t. subst t. rewrite (rawTitle_found _ _ H).
  apply trim_spec.
Qed.

Lemma X8_witness :
  let t := rawTitle (parseFlexibleTimestamps (js "  Intro   0:00  ")) in
  (exists a b,
     stripOrdinal
       (withoutMatch (js "  Intro   0:00  ")
          (mkMatch 10 (js "0:00") [(9%nat, js "00"); (8%nat, js "0")]))
     = a ++ t ++ b /\ blank a /\ blank b) /\
  headNot is_white_space t /\
  headNot is_white_space (rev t).
Proof.
  exact (X8_extractor_title_is_trimmed_remainder (js "  Intro   0:00  ")
           (mkMatch 10 (js "0:00") [(9%nat, js "00"); (8%nat, js "0")])
           eq_refl).
Defined.

Lemma parseInt_snoc s d : parseInt (s ++ [d]) = 10 * parseInt s + digit_value d.
Proof. unfold parseInt. now rewrite fold_left_app. Qed.

Lemma parseInt_bound s :
  Forall (fun c => is_digit c = true) s ->
  parseInt s < 10 ^ N.of_nat (List.length s).
Proof.
  induction s as [|d s IH] using rev_ind; intros H; [reflexivity|].
  apply Forall_app in H. destruct H as [Hs Hd]. inversion Hd as [|? ? Hd' _]; subst.
  rewrite parseInt_snoc, length_app, Nat.add_1_r, Nat2N.inj_succ, N.pow_succ_r'.
  specialize (IH Hs). unfold is_digit in Hd'. unfold digit_value.
  apply andb_true_iff in Hd'. destruct Hd' as [H1 H2].
  apply N.leb_le in H1, H2. lia.
Qed.

(** ** What the chapters of the six formats are *)

Lemma hasTs_app_r A X : hasTs X -> hasTs (A ++ X).
Proof.
  intros (i & pre & w & post & h & mm & ss & -> & Hi & Ht).
  exists (List.length (A ++ pre)), (A ++ pre), w, post, h, mm, ss.
  rewrite <- app_assoc. auto.
Qed.

Lemma hasTs_app_l X B : hasTs X -> hasTs (X ++ B).
Proof.
  intros (i & pre & w & post & h & mm & ss & -> & Hi & Ht).
  exists i, pre, w, (post ++ B), h, mm, ss.
  rewrite <- !app_assoc. auto.
Qed.

Lemma hasTs_hms ml i pv w post cs cs' :
  denote ml (hms i) pv w post cs cs' -> hasTs w.
Proof.
  intros D. apply denote_hms in D.
  destruct D as (h & mm & ss & Hh & Hm & Hs & -> & _).
  exists 0%nat, [], (hmsText h mm ss), [], h, mm, ss.
  rewrite app_nil_r. split; [reflexivity|]. split; [reflexivity|].
  split; [exact Hh|]. split; [exact Hm|]. split; [exact Hs|apply Bare].
Qed.

Lemma hasTs_exec line :
  hasTs line -> exists m, exec timestampRegex line = Some m.
Proof.
  intros (i & pre & w & post & h & mm & ss & Hs & _ & Ht).
  destruct (exec timestampRegex line) as [m|] eqn:E; [now exists m|].
  exfalso.
  destruct (timestamp_complete (multiline timestampRegex) (lastChar None pre)
              w post h mm ss Ht) as [cs' D].
  exact (exec_none _ _ _ _ _ _ E Hs D).
Qed.

Ltac find_ts H :=
  first [ exact H
        | apply hasTs_app_l; find_ts H
        | apply hasTs_app_r; find_ts H ].

(** A line that one of the six line patterns accepts holds a
    timestamp. *)
Lemma lineRx_hasTs f line m :
  exec (lineRxOf f) line = Some m -> hasTs line.
Proof.
  intros E. apply exec_sound in E. destruct E as (pre & post & Hs & _ & D).
  destruct f; cbn [lineRxOf] in D;
    cbn [denote rseq source lawfulLineRx bracketsLineRx parensLineRx
         postfixRx postfixParenRx prefixRx] in D;
    destr;
    match goal with H : matched m = _ |- _ => rewrite H in Hs end;
    subst;
    match goal with H : denote _ (hms _) _ _ _ _ _ |- _ =>
      apply hasTs_hms in H; find_ts H end.
Qed.

Lemma parserOf_chapters f description c :
  In c (parserOf f description) ->
  exists line m,
    In line (skipEmptyLines description) /\
    test (lineRxOf f) line = true /\
    exec timestampRegex line = Some m /\
    c = chapterOf line.
Proof.
  rewrite parserOf_unfold. intros H.
  destruct (chapters_of_lines _ _ _ _ _ _ H) as (line & Hl & T & Hc).
  unfold test in T. destruct (exec (lineRxOf f) line) as [m0|] eqn:E;
    [|discriminate].
  destruct (hasTs_exec line (lineRx_hasTs f line m0 E)) as [m Hm].
  exists line, m. unfold test. rewrite E. auto.
Qed.

Lemma parseYouTubeChapters_parserOf description :
  exists f, parseYouTubeChapters description = parserOf f description.
Proof.
  unfold parseYouTubeChapters.
  destruct (lawfulParser description) as [|c1 l1] eqn:E1;
    [|exists Lawful; cbn [parserOf]; now rewrite E1].
  destruct (bracketsParser description) as [|c2 l2] eqn:E2;
    [|exists Brackets; cbn [parserOf]; now rewrite E2].
  destruct (parensParser description) as [|c3 l3] eqn:E3;
    [|exists Parens; cbn [parserOf]; now rewrite E3].
  destruct (postfixParser description) as [|c4 l4] eqn:E4;
    [|exists Postfix; cbn [parserOf]; now rewrite E4].
  destruct (postfixParenParser description) as [|c5 l5] eqn:E5;
    [|exists PostfixParen; cbn [parserOf]; now rewrite E5].
  exists Prefix. reflexivity.
Qed.



Lemma hasTs_hasTimestamp line : hasTs line -> hasTimestamp line = true.
Proof. intros [i H]. now apply occurs_hasTimestamp in H. Qed.

Lemma hasTimestamp_app_r : forall A X,
  hasTimestamp X = true -> hasTimestamp (A ++ X) = true.
Proof.
  induction A as [|a A IH]; intros X H; [exact H|].
  specialize (IH X H). rewrite <- app_comm_cons.
  destruct (A ++ X) as [|b [|c t]]; try discriminate.
  cbn [hasTimestamp] in *. rewrite IH. apply orb_true_r.
Qed.

Lemma hasTimestamp_app_l : forall X B,
  hasTimestamp X = true -> hasTimestamp (X ++ B) = true.
Proof.
  induction X as [|a X IH]; intros B H; [discriminate|].
  destruct X as [|b [|c t]]; try discriminate.
  cbn [hasTimestamp app] in *.
  apply orb_true_iff in H. destruct H as [H|H].
  - rewrite H. reflexivity.
  - specialize (IH B H). cbn [app] in IH.
    apply orb_true_iff. right. exact IH.
Qed.

(** X11: a description in which no digit, colon and digit stand in a
    row holds no timestamp, and [parseYouTubeChapters] returns the empty
    list for it, as does each of the six parsers. *)
Theorem X11_no_timestamp_no_chapters :
  forall description,
    hasTimestamp description = false ->
    (forall f, parserOf f description = []) /\
    parseYouTubeChapters description = [].
Proof.
  intros description H.
  assert (E : forall f, parserOf f description = []).
  { intros f. destruct (parserOf f description) as [|c l] eqn:Ep;
      [reflexivity|exfalso].
    destruct (parserOf_chapters f description c) as (line & m & Hl & T & _).
    { rewrite Ep. now left. }
    unfold test in T.
    destruct (exec (lineRxOf f) line) as [m0|] eqn:E0; [|discriminate].
    apply lineRx_hasTs, hasTs_hasTimestamp in E0.
    unfold skipEmptyLines in Hl. apply filter_In in Hl. destruct Hl as [Hl _].
    destruct (split_pieces LF description line Hl) as (_ & pre & post & Hd).
    rewrite Hd in H.
    assert (T2 : hasTimestamp (pre ++ line ++ post) = true)
      by (apply hasTimestamp_app_r, hasTimestamp_app_l; exact E0).
    congruence. }
  split; [exact E|].
  destruct (parseYouTubeChapters_parserOf description) as [f ->]. apply E.
Qed.

Lemma X11_witness :
  parseYouTubeChapters
    (js "Thanks for watching at 10: see you" ++ [LF] ++ js "[1] (2) 3.") = [].
Proof.
  apply (X11_no_timestamp_no_chapters
           (js "Thanks for watching at 10: see you" ++ [LF]
            ++ js "[1] (2) 3.")).
  vm_compute. reflexivity.
Defined.

Lemma length_filter_le {A} (p : A -> bool) l :
  (List.length (filter p l) <= List.length l)%nat.
Proof.
  induction l as [|a l IH]; simpl; [lia|]. destruct (p a); simpl; lia.
Qed.

(** X12: a parser built by [makeChapterParser] returns at most one
    chapter for each non-empty line of the description, and each title
    it returns is trimmed; so does [parseYouTubeChapters]. *)
Theorem X12_one_chapter_per_line_at_most :
  forall description,
    (forall startRx lineRx timestampIndex textIndex,
       let chapters :=
         makeChapterParser startRx lineRx timestampIndex textIndex
           description in
       (List.length chapters <= List.length (skipEmptyLines description))%nat /\
       forall c, In c chapters -> trim (title c) = title c) /\
    (List.length (parseYouTubeChapters description)
     <= List.length (skipEmptyLines description))%nat /\
    (forall c, In c (parseYouTubeChapters description) ->
       trim (title c) = title c).
Proof.
  intros description.
  assert (G : forall startRx lineRx ti xi,
    (List.length (makeChapterParser startRx lineRx ti xi description)
     <= List.length (skipEmptyLines description))%nat /\
    forall c, In c (makeChapterParser startRx lineRx ti xi description) ->
      trim (title c) = title c).
  { intros startRx lineRx ti xi. split.
    - destruct (findIndex (test startRx) (skipEmptyLines description))
        as [k|] eqn:E.
      + rewrite (makeChapterParser_some _ _ _ _ _ _ E), length_map.
        etransitivity; [apply length_filter_le|].
        rewrite length_skipn. lia.
      + unfold makeChapterParser. cbv zeta.
        change (fun line => test startRx line) with (test startRx).
        rewrite E. simpl. lia.
    - intros c H. destruct (chapters_of_lines _ _ _ _ _ _ H) as (line & _ & _ & ->).
      unfold chapterOf. cbn [title]. apply trim_idem. }
  split; [intros; apply G|].
  destruct (parseYouTubeChapters_parserOf description) as [f ->].
  rewrite parserOf_unfold. apply G.
Qed.

(** ** Reading a timestamp at the start of a text *)

Lemma star_greedy_first k c z : forall s p pv cs,
  c (MState (p + List.length (takeWhile (cmatch k) s))
       (lastChar pv (takeWhile (cmatch k) s))
       (dropWhile (cmatch k) s) cs) = Some z ->
  star k true p pv s cs c = Some z.
Proof.
  induction s as [|a s IH]; intros p pv cs H; simpl in *.
  - now rewrite Nat.add_0_r in H.
  - destruct (cmatch k a); simpl in H.
    + rewrite Nat.add_succ_r in H. now rewrite (IH (S p) (Some a) cs H).
    + now rewrite Nat.add_0_r in H.
Qed.

(** [k+] reads the whole run [ds] when what follows succeeds there. *)
Lemma plus_greedy_first ml k ds r p pv cs c z :
  ds <> [] -> Forall (fun a => cmatch k a = true) ds ->
  headNot (cmatch k) r ->
  c (MState (p + List.length ds) (lastChar pv ds) r cs) = Some z ->
  rmatch ml (RPlus k) (MState p pv (ds ++ r) cs) c = Some z.
Proof.
  intros Hne Hds Hr Hc. destruct ds as [|d ds]; [contradiction|].
  inversion Hds as [|? ? Hd Hds']; subst.
  cbn [RPlus rmatch rest app]. rewrite Hd. cbn [rmatch advance pos prev rest caps].
  apply star_greedy_first.
  destruct (span_app (cmatch k) ds r Hds' Hr) as [-> ->].
  simpl in Hc. now rewrite Nat.add_succ_r in Hc.
Qed.

(** [k+] gives what follows the whole run [ds] gives there, when what
    follows fails wherever a character of the class comes next. *)
Lemma plus_greedy_max ml k ds r p pv cs c :
  ds <> [] -> Forall (fun a => cmatch k a = true) ds ->
  headNot (cmatch k) r ->
  (forall y a t, rest y = a :: t -> cmatch k a = true -> c y = None) ->
  rmatch ml (RPlus k) (MState p pv (ds ++ r) cs) c
  = c (MState (p + List.length ds) (lastChar pv ds) r cs).
Proof.
  intros Hne Hds Hr Hc. destruct ds as [|d ds]; [contradiction|].
  inversion Hds as [|? ? Hd Hds']; subst.
  cbn [RPlus rmatch rest app]. rewrite Hd. cbn [rmatch advance pos prev rest caps].
  rewrite (star_greedy_max k c Hc).
  destruct (span_app (cmatch k) ds r Hds' Hr) as [-> ->].
  simpl. now rewrite Nat.add_succ_r.
Qed.

Lemma firstn_length_app (ds r : jsstring) p :
  firstn (p + List.length ds - p) (ds ++ r) = ds.
Proof.
  replace (p + List.length ds - p)%nat with (List.length ds + 0)%nat by lia.
  rewrite firstn_app_2. simpl. apply app_nil_r.
Qed.

Lemma group_greedy_first ml i ds r p pv cs c z :
  digits ds -> headNot is_digit r ->
  c (MState (p + List.length ds) (lastChar pv ds) r ((i, ds) :: cs)) = Some z ->
  rmatch ml (RGroup i (RPlus Digit)) (MState p pv (ds ++ r) cs) c = Some z.
Proof.
  intros [Hne Hds] Hr Hc. cbn [rmatch].
  apply plus_greedy_first; try assumption.
  unfold set_cap. cbn [pos prev rest caps]. now rewrite firstn_length_app.
Qed.

Lemma group_greedy_max ml i ds r p pv cs c :
  digits ds -> headNot is_digit r ->
  (forall y a t, rest y = a :: t -> is_digit a = true -> c y = None) ->
  rmatch ml (RGroup i (RPlus Digit)) (MState p pv (ds ++ r) cs) c
  = c (MState (p + List.length ds) (lastChar pv ds) r ((i, ds) :: cs)).
Proof.
  intros [Hne Hds] Hr Hc. cbn [rmatch].
  rewrite plus_greedy_max; try assumption.
  - unfold set_cap. cbn [pos prev rest caps]. now rewrite firstn_length_app.
  - intros y a t Hy Ha. apply (Hc _ a t); [exact Hy|exact Ha].
Qed.

(** A literal fails on a digit. *)
Lemma colon_fails_on_digit ml R c y a t :
  rest y = a :: t -> is_digit a = true ->
  rmatch ml (RSeq (ch ":") R) y c = None.
Proof.
  intros Hy Ha. cbn [rmatch ch]. rewrite Hy. cbn [cmatch]. unfold char_eqb.
  destruct (N.eqb_spec a (N_of_ascii ":")) as [->|_]; [discriminate|reflexivity].
Qed.

Lemma rmatch_seq ml r1 r2 x c :
  rmatch ml (RSeq r1 r2) x c = rmatch ml r1 x (fun y => rmatch ml r2 y c).
Proof. reflexivity. Qed.

Lemma rmatch_colon ml s p pv cs c :
  rmatch ml (ch ":") (MState p pv (58 :: s) cs) c
  = c (MState (S p) (Some 58) s cs).
Proof. reflexivity. Qed.

(** Minutes, colon, seconds: the second half of [hms]. *)
Lemma ms_greedy_first ml i mm ss t p pv cs c z :
  digits mm -> digits ss -> headNot is_digit t ->
  c (MState (p + List.length (mm ++ 58 :: ss)) (lastChar pv (mm ++ 58 :: ss)) t
       ((S (S i), ss) :: (S i, mm) :: cs)) = Some z ->
  rmatch ml
    (RSeq (RGroup (S i) (RPlus Digit))
       (RSeq (ch ":") (RGroup (S (S i)) (RPlus Digit))))
    (MState p pv (mm ++ 58 :: ss ++ t) cs) c = Some z.
Proof.
  intros Hm Hs Ht Hc. rewrite rmatch_seq.
  rewrite group_greedy_max; [|exact Hm|reflexivity|].
  2:{ intros y a t0 Hy Ha. now apply (colon_fails_on_digit ml _ c y a t0). }
  rewrite rmatch_seq, rmatch_colon.
  apply group_greedy_first; try assumption.
  rewrite length_app, lastChar_app in Hc. cbn [List.length] in Hc.
  replace (S (p + List.length mm) + List.length ss)%nat
    with (p + (List.length mm + S (List.length ss)))%nat by lia.
  exact Hc.
Qed.

Lemma ms_fails_without_colon ml i ss t p pv cs c :
  digits ss -> tailOK t ->
  rmatch ml
    (RSeq (RGroup (S i) (RPlus Digit))
       (RSeq (ch ":") (RGroup (S (S i)) (RPlus Digit))))
    (MState p pv (ss ++ t) cs) c = None.
Proof.
  intros Hs Ht. rewrite rmatch_seq.
  rewrite group_greedy_max; [|exact Hs|now apply tailOK_headNot|].
  2:{ intros y a t0 Hy Ha. now apply (colon_fails_on_digit ml _ c y a t0). }
  cbn [rmatch ch rest cmatch]. destruct t as [|a t]; [reflexivity|].
  destruct Ht as [_ Ha]. unfold char_eqb.
  destruct (N.eqb_spec a (N_of_ascii ":")) as [->|_]; [now contradiction Ha|].
  reflexivity.
Qed.

Lemma colon_alone_fails_on_digit ml c y a t :
  rest y = a :: t -> is_digit a = true -> rmatch ml (ch ":") y c = None.
Proof.
  intros Hy Ha. cbn [rmatch ch]. rewrite Hy. cbn [cmatch]. unfold char_eqb.
  destruct (N.eqb_spec a (N_of_ascii ":")) as [->|_]; [discriminate|reflexivity].
Qed.

Lemma rmatch_opt ml r x c :
  rmatch ml (ROpt r) x c
  = match rmatch ml r x
            (fun y => if Nat.eqb (pos y) (pos x) then None else c y) with
    | Some z => Some z
    | None => c x
    end.
Proof. reflexivity. Qed.

(** [hms] reads the whole of a timestamp text that is followed by
    neither a digit nor a colon, when what follows succeeds there. *)
Lemma hms_greedy_first ml i h mm ss t p pv cs c z :
  (forall hh, h = Some hh -> digits hh) -> digits mm -> digits ss ->
  tailOK t ->
  c (MState (p + List.length (hmsText h mm ss))
       (lastChar pv (hmsText h mm ss)) t
       ((S (S i), ss) :: (S i, mm) ::
        match h with Some hh => (i, hh) :: cs | None => cs end)) = Some z ->
  rmatch ml (hms i) (MState p pv (hmsText h mm ss ++ t) cs) c = Some z.
Proof.
  intros Hh Hm Hs Ht Hc. pose proof (tailOK_headNot _ Ht) as Hn.
  unfold hms. cbn [rseq]. rewrite rmatch_seq, rmatch_opt.
  destruct h as [hh|]; unfold hmsText in *;
    cbn [js List.map list_ascii_of_string] in *;
    change (N_of_ascii ":") with 58 in *.
  - rewrite <- !app_assoc. cbn [app].
    rewrite rmatch_seq.
    rewrite (group_greedy_max ml i hh (58 :: mm ++ 58 :: ss ++ t));
      [|exact (Hh hh eq_refl)|reflexivity|].
    2:{ intros y a t0 Hy Ha. now apply (colon_alone_fails_on_digit ml _ y a t0). }
    rewrite rmatch_colon. cbn [pos].
    destruct (Nat.eqb_spec (S (p + List.length hh)) p) as [E|_]; [lia|].
    rewrite (ms_greedy_first ml i mm ss t _ _ _ c z); try assumption;
      [reflexivity|].
    cbn [app] in Hc.
    rewrite length_app, lastChar_app in Hc. cbn [List.length] in Hc.
    set (n := List.length (mm ++ 58 :: ss)) in *.
    replace (S (p + List.length hh) + n)%nat
      with (p + (List.length hh + S n))%nat by lia.
    exact Hc.
  - rewrite <- !app_assoc. cbn [app].
    rewrite rmatch_seq.
    rewrite (group_greedy_max ml i mm (58 :: ss ++ t));
      [|exact Hm|reflexivity|].
    2:{ intros y a t0 Hy Ha. now apply (colon_alone_fails_on_digit ml _ y a t0). }
    rewrite rmatch_colon. cbn [pos].
    destruct (Nat.eqb_spec (S (p + List.length mm)) p) as [E|_]; [lia|].
    rewrite ms_fails_without_colon by assumption.
    apply ms_greedy_first; assumption.
Qed.

Lemma scan_first ml r p pv s y :
  rmatch ml r (MState p pv s []) (fun y => Some y) = Some y ->
  scan ml r p pv s = Some (mkMatch p (firstn (pos y - p) s) (caps y)).
Proof. intros H. destruct s; simpl; now rewrite H. Qed.

Lemma ch_fails ml a R x c :
  (forall d r, rest x = d :: r -> d <> N_of_ascii a) ->
  rmatch ml (RSeq (ch a) R) x c = None.
Proof.
  intros H. cbn [rmatch ch]. destruct (rest x) as [|d r] eqn:E; [reflexivity|].
  cbn [cmatch]. unfold char_eqb.
  destruct (N.eqb_spec d (N_of_ascii a)) as [->|_]; [|reflexivity].
  now destruct (H _ _ eq_refl).
Qed.

Lemma rmatch_alt ml r1 r2 x c :
  rmatch ml (RAlt r1 r2) x c
  = match rmatch ml r1 x c with Some z => Some z | None => rmatch ml r2 x c end.
Proof. reflexivity. Qed.

Lemma exec_timestamp_bare h mm ss t :
  (forall hh, h = Some hh -> digits hh) -> digits mm -> digits ss ->
  tailOK t ->
  exec timestampRegex (hmsText h mm ss ++ t)
  = Some (mkMatch 0 (hmsText h mm ss) (bareCaps h mm ss)).
Proof.
  intros Hh Hm Hs Ht.
  destruct (hmsText_head h mm ss Hh Hm) as (d & r & Ed & Hd).
  assert (Hx : forall a, is_digit (N_of_ascii a) = false ->
            forall d0 r0, hmsText h mm ss ++ t = d0 :: r0 -> d0 <> N_of_ascii a).
  { intros a Ha d0 r0 E. rewrite Ed in E. inversion E; subst. congruence. }
  unfold exec. cbn [multiline source timestampRegex has_flag flags].
  erewrite scan_first.
  2:{ cbn [rseq]. rewrite rmatch_alt, ch_fails by (apply Hx; reflexivity).
      rewrite rmatch_alt, ch_fails by (apply Hx; reflexivity).
      apply hms_greedy_first; try assumption. reflexivity. }
  cbn [pos caps]. unfold bareCaps. rewrite firstn_length_app. reflexivity.
Qed.

Lemma rmatch_lit ml a s p pv cs c :
  rmatch ml (ch a) (MState p pv (N_of_ascii a :: s) cs) c
  = c (MState (S p) (Some (N_of_ascii a)) s cs).
Proof. cbn [rmatch ch rest cmatch]. unfold char_eqb. now rewrite N.eqb_refl. Qed.

Lemma rmatch_star ml k g p pv s cs c :
  rmatch ml (RStar k g) (MState p pv s cs) c = star k g p pv s cs c.
Proof. reflexivity. Qed.

Lemma spaces_greedy_first ml ws r p pv cs c z :
  spaces ws -> headNot is_white_space r ->
  c (MState (p + List.length ws) (lastChar pv ws) r cs) = Some z ->
  rmatch ml (RStar Space true) (MState p pv (ws ++ r) cs) c = Some z.
Proof.
  intros Hws Hr Hc. rewrite rmatch_star. apply star_greedy_first.
  destruct (span_app (cmatch Space) ws r Hws Hr) as [-> ->]. exact Hc.
Qed.

Lemma tailOK_spaces ws r : spaces ws -> tailOK r -> tailOK (ws ++ r).
Proof.
  intros Hws Hr. destruct ws as [|a ws]; [exact Hr|].
  inversion Hws as [|? ? Ha _]; subst. simpl in *. split.
  - destruct (is_digit a) eqn:E; [|reflexivity].
    apply digit_not_space in E. congruence.
  - intros ->. discriminate.
Qed.

(** A timestamp between an opening and a closing character, as the
    first two alternatives of [timestampRegex] read it. *)
Lemma enclosed_greedy_first ml o cl i h mm ss ws1 ws2 t p pv cs c z :
  (forall hh, h = Some hh -> digits hh) -> digits mm -> digits ss ->
  spaces ws1 -> spaces ws2 ->
  is_white_space (N_of_ascii cl) = false -> tailOK [N_of_ascii cl] ->
  c (MState (S (S (p + List.length ws1 + List.length (hmsText h mm ss)
                   + List.length ws2)))
       (Some (N_of_ascii cl)) t
       ((S (S i), ss) :: (S i, mm) ::
        match h with Some hh => (i, hh) :: cs | None => cs end)) = Some z ->
  rmatch ml
    (rseq [ch o; RStar Space true; hms i; RStar Space true; ch cl])
    (MState p pv
       (N_of_ascii o :: ws1 ++ hmsText h mm ss ++ ws2 ++ N_of_ascii cl :: t) cs)
    c = Some z.
Proof.
  intros Hh Hm Hs W1 W2 Hcl Hcl' Hc.
  destruct (hmsText_head h mm ss Hh Hm) as (d & r & Ed & Hd).
  cbn [rseq]. rewrite rmatch_seq, rmatch_lit, rmatch_seq.
  apply spaces_greedy_first; [exact W1| |].
  { rewrite Ed. simpl. now apply digit_not_space. }
  rewrite rmatch_seq.
  apply hms_greedy_first; try assumption.
  { apply tailOK_spaces; [exact W2|]. simpl in *. exact Hcl'. }
  rewrite rmatch_seq.
  apply spaces_greedy_first; [exact W2|exact Hcl|].
  rewrite rmatch_lit.
  replace (S (S p + List.length ws1 + List.length (hmsText h mm ss)
              + List.length ws2))%nat
    with (S (S (p + List.length ws1 + List.length (hmsText h mm ss)
                + List.length ws2))) by lia.
  exact Hc.
Qed.

Lemma exec_timestamp_enclosed_bracket h mm ss ws1 ws2 t :
  (forall hh, h = Some hh -> digits hh) -> digits mm -> digits ss ->
  spaces ws1 -> spaces ws2 ->
  exists m,
    exec timestampRegex
      ((js "[" ++ ws1 ++ hmsText h mm ss ++ ws2 ++ js "]") ++ t) = Some m /\
    index m = 0%nat /\
    matched m = js "[" ++ ws1 ++ hmsText h mm ss ++ ws2 ++ js "]".
Proof.
  intros Hh Hm Hs W1 W2.
  set (w := js "[" ++ ws1 ++ hmsText h mm ss ++ ws2 ++ js "]").
  assert (Ew : w ++ t
               = N_of_ascii "[" :: ws1 ++ hmsText h mm ss ++ ws2
                 ++ N_of_ascii "]" :: t).
  { unfold w. cbn [js List.map list_ascii_of_string app].
    rewrite <- !app_assoc. reflexivity. }
  eexists. split; [|split].
  - unfold exec. cbn [multiline source timestampRegex has_flag flags].
    apply scan_first. rewrite rmatch_alt, Ew.
    erewrite (enclosed_greedy_first false "[" "]" 1 h mm ss ws1 ws2 t);
      try eassumption; try reflexivity.
    simpl. split; [reflexivity|discriminate].
  - reflexivity.
  - cbn [matched pos]. rewrite Nat.sub_0_r.
    replace (S (S (0 + List.length ws1 + List.length (hmsText h mm ss)
                   + List.length ws2))) with (List.length w + 0)%nat.
    + rewrite firstn_app_2. cbn [firstn]. apply app_nil_r.
    + unfold w. cbn [js List.map list_ascii_of_string app List.length].
      rewrite !length_app. simpl. lia.
Qed.

Lemma exec_timestamp_enclosed_paren h mm ss ws1 ws2 t :
  (forall hh, h = Some hh -> digits hh) -> digits mm -> digits ss ->
  spaces ws1 -> spaces ws2 ->
  exists m,
    exec timestampRegex
      ((js "(" ++ ws1 ++ hmsText h mm ss ++ ws2 ++ js ")") ++ t) = Some m /\
    index m = 0%nat /\
    matched m = js "(" ++ ws1 ++ hmsText h mm ss ++ ws2 ++ js ")".
Proof.
  intros Hh Hm Hs W1 W2.
  set (w := js "(" ++ ws1 ++ hmsText h mm ss ++ ws2 ++ js ")").
  assert (Ew : w ++ t
               = N_of_ascii "(" :: ws1 ++ hmsText h mm ss ++ ws2
                 ++ N_of_ascii ")" :: t).
  { unfold w. cbn [js List.map list_ascii_of_string app].
    rewrite <- !app_assoc. reflexivity. }
  eexists. split; [|split].
  - unfold exec. cbn [multiline source timestampRegex has_flag flags].
    apply scan_first. rewrite rmatch_alt, Ew.
    change (rseq [ch "["; RStar Space true; hms 1; RStar Space true; ch "]"])
      with (RSeq (ch "[")
              (rseq [RStar Space true; hms 1; RStar Space true; ch "]"])).
    rewrite ch_fails by (intros d r E; inversion E; discriminate).
    rewrite rmatch_alt.
    erewrite (enclosed_greedy_first false "(" ")" 4 h mm ss ws1 ws2 t);
      try eassumption; try reflexivity.
    simpl. split; [reflexivity|discriminate].
  - reflexivity.
  - cbn [matched pos]. rewrite Nat.sub_0_r.
    replace (S (S (0 + List.length ws1 + List.length (hmsText h mm ss)
                   + List.length ws2))) with (List.length w + 0)%nat.
    + rewrite firstn_app_2. cbn [firstn]. apply app_nil_r.
    + unfold w. cbn [js List.map list_ascii_of_string app List.length].
      rewrite !length_app. simpl. lia.
Qed.

Lemma Flexible_eta r : r = mkFlexible (timestamp r) (rawTitle r).
Proof. now destruct r. Qed.

Lemma parseFlexible_of_leading_match line m w t h mm ss :
  exec timestampRegex line = Some m ->
  line = w ++ t -> index m = 0%nat -> matched m = w ->
  Timestamp h mm ss w ->
  parseFlexibleTimestamps line
  = mkFlexible (totalSeconds h mm ss) (trim (stripOrdinal t)).
Proof.
  intros E El Hi Hw Ht.
  rewrite (Flexible_eta (parseFlexibleTimestamps line)). f_equal.
  - destruct (exec_timestamp_occurs line m E)
      as (pre & post & h0 & mm0 & ss0 & _ & _ & Ht0 & Ev).
    rewrite Hw in Ht0.
    destruct (Timestamp_unique _ _ _ _ _ _ _ Ht Ht0) as (-> & -> & ->).
    exact Ev.
  - rewrite (rawTitle_found _ _ E). do 2 f_equal. subst line.
    apply (withoutMatch_app [] w t m Hw Hi).
Qed.

Lemma parseFlexible_leading h mm ss w t :
  Timestamp h mm ss w ->
  (w = hmsText h mm ss -> tailOK t) ->
  parseFlexibleTimestamps (w ++ t)
  = mkFlexible (totalSeconds h mm ss) (trim (stripOrdinal t)).
Proof.
  intros Ht Htail. pose proof Ht as (Hh & Hm & Hs & Hw).
  destruct Hw as [ws1 ws2 W1 W2|ws1 ws2 W1 W2|].
  - destruct (exec_timestamp_enclosed_bracket h mm ss ws1 ws2 t Hh Hm Hs W1 W2)
      as (m & E & Hi & Hmt).
    exact (parseFlexible_of_leading_match _ m _ t h mm ss E eq_refl Hi Hmt Ht).
  - destruct (exec_timestamp_enclosed_paren h mm ss ws1 ws2 t Hh Hm Hs W1 W2)
      as (m & E & Hi & Hmt).
    exact (parseFlexible_of_leading_match _ m _ t h mm ss E eq_refl Hi Hmt Ht).
  - exact (parseFlexible_of_leading_match _
             (mkMatch 0 (hmsText h mm ss) (bareCaps h mm ss)) _ t h mm ss
             (exec_timestamp_bare h mm ss t Hh Hm Hs (Htail eq_refl))
             eq_refl eq_refl eq_refl Ht).
Qed.



(** ** Chapter lists written out and read back *)

Lemma digit_not_lt c : is_digit c = true -> is_line_terminator c = false.
Proof.
  intros H. destruct (is_line_terminator c) eqn:E; [|reflexivity].
  unfold is_digit, is_line_terminator in *. bool_to_prop; lia.
Qed.

Lemma digits_noLT s : digits s -> noLineTerminator s.
Proof.
  intros [_ H]. unfold noLineTerminator.
  eapply Forall_impl; [|exact H]. intros c Hc. now apply digit_not_lt.
Qed.

Lemma noLT_app a b :
  noLineTerminator a -> noLineTerminator b -> noLineTerminator (a ++ b).
Proof. intros Ha Hb. apply Forall_app. now split. Qed.

Lemma hmsText_noLT h mm ss :
  (forall hh, h = Some hh -> digits hh) -> digits mm -> digits ss ->
  noLineTerminator (hmsText h mm ss).
Proof.
  intros Hh Hm Hs. destruct h as [hh|]; unfold hmsText;
    repeat apply noLT_app; try (now apply digits_noLT);
    try (repeat constructor).
  now apply digits_noLT, Hh.
Qed.

Lemma noLT_no_LF s : noLineTerminator s -> ~ In LF s.
Proof.
  intros H Hin. unfold noLineTerminator in H. rewrite Forall_forall in H.
  specialize (H LF Hin). discriminate.
Qed.

Lemma nonEmpty_head c r : is_white_space c = false -> nonEmpty (c :: r) = true.
Proof.
  intros Hc. unfold nonEmpty, trim. simpl. rewrite Hc.
  destruct (trimEnd_split (c :: r)) as (x & E & Hx).
  destruct (trimEnd (c :: r)) as [|a u]; [|reflexivity].
  simpl in E. subst x. inversion Hx; congruence.
Qed.

Lemma trim_after_space title : trim (js " " ++ title) = trim title.
Proof. reflexivity. Qed.

Lemma wellFormed_text e :
  wellFormed e ->
  Timestamp (entryHours e) (entryMinutes e) (entrySeconds e) (entryText e).
Proof.
  intros (Hh & Hm & Hs & _). unfold entryText.
  split; [exact Hh|]. split; [exact Hm|]. split; [exact Hs|apply Bare].
Qed.

Lemma tailOK_space t : tailOK (js " " ++ t).
Proof. simpl. split; [reflexivity|discriminate]. Qed.

Lemma chapterOf_lawfulLine e :
  wellFormed e -> chapterOf (lawfulLine e) = entryChapter e.
Proof.
  intros H. pose proof (wellFormed_text e H) as Ht.
  destruct H as (_ & _ & _ & _ & Htrim).
  unfold chapterOf, lawfulLine.
  rewrite (parseFlexible_leading _ _ _ _ _ Ht (fun _ => tailOK_space _)).
  cbn [timestamp rawTitle]. unfold entryChapter. f_equal.
  change (stripOrdinal (js " " ++ entryTitle e)) with (js " " ++ entryTitle e).
  rewrite trim_after_space, Htrim. exact Htrim.
Qed.

Lemma chapterOf_bracketsLine e :
  wellFormed e -> chapterOf (bracketsLine e) = entryChapter e.
Proof.
  intros H. pose proof (wellFormed_text e H) as (Hh & Hm & Hs & _).
  destruct H as (_ & _ & _ & _ & Htrim).
  unfold chapterOf, bracketsLine.
  replace (js "[" ++ entryText e ++ js "]" ++ js " " ++ entryTitle e)
    with ((js "[" ++ [] ++ entryText e ++ [] ++ js "]")
          ++ js " " ++ entryTitle e)
    by (cbn [app]; rewrite <- !app_assoc; reflexivity).
  rewrite (parseFlexible_leading (entryHours e) (entryMinutes e)
             (entrySeconds e)).
  - cbn [timestamp rawTitle]. unfold entryChapter. f_equal.
    change (stripOrdinal (js " " ++ entryTitle e)) with (js " " ++ entryTitle e).
    rewrite trim_after_space, Htrim. exact Htrim.
  - split; [exact Hh|]. split; [exact Hm|]. split; [exact Hs|].
    apply Bracketed; constructor.
  - intros _. apply tailOK_space.
Qed.

Lemma chapterOf_parensLine e :
  wellFormed e -> chapterOf (parensLine e) = entryChapter e.
Proof.
  intros H. pose proof (wellFormed_text e H) as (Hh & Hm & Hs & _).
  destruct H as (_ & _ & _ & _ & Htrim).
  unfold chapterOf, parensLine.
  replace (js "(" ++ entryText e ++ js ")" ++ js " " ++ entryTitle e)
    with ((js "(" ++ [] ++ entryText e ++ [] ++ js ")")
          ++ js " " ++ entryTitle e)
    by (cbn [app]; rewrite <- !app_assoc; reflexivity).
  rewrite (parseFlexible_leading (entryHours e) (entryMinutes e)
             (entrySeconds e)).
  - cbn [timestamp rawTitle]. unfold entryChapter. f_equal.
    change (stripOrdinal (js " " ++ entryTitle e)) with (js " " ++ entryTitle e).
    rewrite trim_after_space, Htrim. exact Htrim.
  - split; [exact Hh|]. split; [exact Hm|]. split; [exact Hs|].
    apply Parenthesized; constructor.
  - intros _. apply tailOK_space.
Qed.

Lemma test_of_denote R line cs' :
  denote (multiline R) (source R) None line [] [] cs' -> test R line = true.
Proof.
  intros D. destruct (test R line) eqn:T; [reflexivity|exfalso].
  apply test_exec in T.
  refine (exec_none R line [] line [] cs' T _ D). now rewrite app_nil_r.
Qed.

Lemma noLT_anyChar title :
  noLineTerminator title -> Forall (fun a => cmatch AnyChar a = true) title.
Proof.
  intros H. eapply Forall_impl; [|exact H]. intros c Hc. cbn. now rewrite Hc.
Qed.

Lemma denote_space_title ml pv title cs :
  noLineTerminator title ->
  denote ml (rseq [RPlus Space; RGroup 4 (RStar AnyChar false); REol]) pv
    (js " " ++ title) [] cs ((4%nat, title) :: cs).
Proof.
  intros Ht. cbn [rseq denote].
  exists (js " "), title, cs. split; [reflexivity|]. split.
  - apply denote_plus. split; [discriminate|]. split; [repeat constructor|reflexivity].
  - exists title, [], ((4%nat, title) :: cs).
    split; [now rewrite app_nil_r|]. split.
    + exists cs. split; [|reflexivity]. split; [now apply noLT_anyChar|reflexivity].
    + auto.
Qed.

Lemma denote_entry ml i pv post cs e :
  wellFormed e ->
  denote ml (hms i) pv (entryText e) post cs
    ((S (S i), entrySeconds e) :: (S i, entryMinutes e) ::
     match entryHours e with Some hh => (i, hh) :: cs | None => cs end).
Proof.
  intros (Hh & Hm & Hs & _). apply denote_hms.
  exists (entryHours e), (entryMinutes e), (entrySeconds e). auto 6.
Qed.

Lemma lawfulLineRx_accepts e :
  wellFormed e -> test lawfulLineRx (lawfulLine e) = true.
Proof.
  intros H. pose proof H as (_ & _ & _ & Ht & _).
  eapply test_of_denote. cbn [multiline source lawfulLineRx has_flag flags].
  change (rseq [RBol; hms 1; RPlus Space; RGroup 4 (RStar AnyChar false); REol])
    with (RSeq RBol (RSeq (hms 1)
            (rseq [RPlus Space; RGroup 4 (RStar AnyChar false); REol]))).
  cbn [denote].
  exists [], (lawfulLine e), []. split; [reflexivity|]. split; [auto|].
  eexists (entryText e), (js " " ++ entryTitle e), _.
  split; [reflexivity|]. split; [now apply denote_entry|].
  now apply denote_space_title.
Qed.

Lemma bracketsLineRx_accepts e :
  wellFormed e -> test bracketsLineRx (bracketsLine e) = true.
Proof.
  intros H. pose proof H as (_ & _ & _ & Ht & _).
  eapply test_of_denote. cbn [multiline source bracketsLineRx has_flag flags].
  change (rseq [RBol; ch "["; hms 1; ch "]"; RPlus Space;
                RGroup 4 (RStar AnyChar false); REol])
    with (RSeq RBol (RSeq (ch "[") (RSeq (hms 1) (RSeq (ch "]")
            (rseq [RPlus Space; RGroup 4 (RStar AnyChar false); REol]))))).
  cbn [denote].
  exists [], (bracketsLine e), []. split; [reflexivity|]. split; [auto|].
  exists (js "["), (entryText e ++ js "]" ++ js " " ++ entryTitle e), [].
  split; [reflexivity|]. split; [apply denote_ch; auto|].
  eexists (entryText e), (js "]" ++ js " " ++ entryTitle e), _.
  split; [reflexivity|]. split; [now apply denote_entry|].
  eexists (js "]"), (js " " ++ entryTitle e), _.
  split; [reflexivity|]. split; [apply denote_ch; auto|].
  now apply denote_space_title.
Qed.

Lemma parensLineRx_accepts e :
  wellFormed e -> test parensLineRx (parensLine e) = true.
Proof.
  intros H. pose proof H as (_ & _ & _ & Ht & _).
  eapply test_of_denote. cbn [multiline source parensLineRx has_flag flags].
  change (rseq [RBol; ch "("; hms 1; ch ")"; RPlus Space;
                RGroup 4 (RStar AnyChar false); REol])
    with (RSeq RBol (RSeq (ch "(") (RSeq (hms 1) (RSeq (ch ")")
            (rseq [RPlus Space; RGroup 4 (RStar AnyChar false); REol]))))).
  cbn [denote].
  exists [], (parensLine e), []. split; [reflexivity|]. split; [auto|].
  exists (js "("), (entryText e ++ js ")" ++ js " " ++ entryTitle e), [].
  split; [reflexivity|]. split; [apply denote_ch; auto|].
  eexists (entryText e), (js ")" ++ js " " ++ entryTitle e), _.
  split; [reflexivity|]. split; [now apply denote_entry|].
  eexists (js ")"), (js " " ++ entryTitle e), _.
  split; [reflexivity|]. split; [apply denote_ch; auto|].
  now apply denote_space_title.
Qed.

Lemma lawfulStart_zero e :
  startsAtZero e -> test lawfulStartRx (lawfulLine e) = true.
Proof.
  destruct e as [h mm ss title]. unfold startsAtZero, lawfulLine, entryText.
  cbn [entryHours entryMinutes entrySeconds entryTitle].
  intros (-> & [-> | ->] & ->); reflexivity.
Qed.

Lemma bracketsStart_zero e :
  startsAtZero e -> test bracketsStartRx (bracketsLine e) = true.
Proof.
  destruct e as [h mm ss title]. unfold startsAtZero, bracketsLine, entryText.
  cbn [entryHours entryMinutes entrySeconds entryTitle].
  intros (-> & [-> | ->] & ->); reflexivity.
Qed.

Lemma parensStart_zero e :
  startsAtZero e -> test parensStartRx (parensLine e) = true.
Proof.
  destruct e as [h mm ss title]. unfold startsAtZero, parensLine, entryText.
  cbn [entryHours entryMinutes entrySeconds entryTitle].
  intros (-> & [-> | ->] & ->); reflexivity.
Qed.

Lemma filter_all {A} (p : A -> bool) l :
  (forall a, In a l -> p a = true) -> filter p l = l.
Proof.
  induction l as [|a l IH]; intros H; simpl; [reflexivity|].
  rewrite (H a (or_introl eq_refl)). f_equal. apply IH.
  intros b Hb. apply H. now right.
Qed.

(** Lines that the line pattern accepts, the first of which the start
    pattern accepts, are read back one chapter each. *)
Lemma parse_written_lines (render : Entry -> jsstring) startRx lineRx ti xi
    first others :
  (forall e, In e (first :: others) ->
     ~ In LF (render e) /\ nonEmpty (render e) = true /\
     test lineRx (render e) = true /\
     chapterOf (render e) = entryChapter e) ->
  test startRx (render first) = true ->
  skipEmptyLines (join LF (List.map render (first :: others)))
    = List.map render (first :: others) /\
  makeChapterParser startRx lineRx ti xi
    (join LF (List.map render (first :: others)))
  = List.map entryChapter (first :: others).
Proof.
  intros H Hstart.
  assert (E : skipEmptyLines (join LF (List.map render (first :: others)))
              = List.map render (first :: others)).
  { rewrite skipEmptyLines_join.
    - apply filter_all. intros l Hl. apply in_map_iff in Hl.
      destruct Hl as (e & <- & He). now apply H.
    - intros l Hl. apply in_map_iff in Hl.
      destruct Hl as (e & <- & He). now apply H. }
  split; [exact E|].
  rewrite (makeChapterParser_some _ _ _ _ _ 0).
  - rewrite E. cbn [skipn]. rewrite filter_all.
    + rewrite map_map. apply map_ext_in. intros e He. now apply H.
    + intros l Hl. apply in_map_iff in Hl.
      destruct Hl as (e & <- & He). now apply H.
  - rewrite E. cbn [List.map findIndex]. now rewrite Hstart.
Qed.

Lemma entryText_head e :
  wellFormed e -> exists d r, entryText e = d :: r /\ is_digit d = true.
Proof. intros (Hh & Hm & _). now apply hmsText_head. Qed.

Lemma entryText_noLT e : wellFormed e -> noLineTerminator (entryText e).
Proof. intros (Hh & Hm & Hs & _). now apply hmsText_noLT. Qed.

Lemma lawfulLine_ok e :
  wellFormed e ->
  ~ In LF (lawfulLine e) /\ nonEmpty (lawfulLine e) = true /\
  test lawfulLineRx (lawfulLine e) = true /\
  chapterOf (lawfulLine e) = entryChapter e.
Proof.
  intros H. pose proof H as (_ & _ & _ & Ht & _). split; [|split; [|split]].
  - apply noLT_no_LF. unfold lawfulLine.
    repeat apply noLT_app; [now apply entryText_noLT|repeat constructor|exact Ht].
  - destruct (entryText_head e H) as (d & r & E & Hd).
    unfold lawfulLine. rewrite E. apply nonEmpty_head. now apply digit_not_space.
  - now apply lawfulLineRx_accepts.
  - now apply chapterOf_lawfulLine.
Qed.

Lemma bracketsLine_ok e :
  wellFormed e ->
  ~ In LF (bracketsLine e) /\ nonEmpty (bracketsLine e) = true /\
  test bracketsLineRx (bracketsLine e) = true /\
  chapterOf (bracketsLine e) = entryChapter e.
Proof.
  intros H. pose proof H as (_ & _ & _ & Ht & _). split; [|split; [|split]].
  - apply noLT_no_LF. unfold bracketsLine.
    repeat apply noLT_app; try (repeat constructor); try exact Ht.
    now apply entryText_noLT.
  - unfold bracketsLine. now apply nonEmpty_head.
  - now apply bracketsLineRx_accepts.
  - now apply chapterOf_bracketsLine.
Qed.

Lemma parensLine_ok e :
  wellFormed e ->
  ~ In LF (parensLine e) /\ nonEmpty (parensLine e) = true /\
  test parensLineRx (parensLine e) = true /\
  chapterOf (parensLine e) = entryChapter e.
Proof.
  intros H. pose proof H as (_ & _ & _ & Ht & _). split; [|split; [|split]].
  - apply noLT_no_LF. unfold parensLine.
    repeat apply noLT_app; try (repeat constructor); try exact Ht.
    now apply entryText_noLT.
  - unfold parensLine. now apply nonEmpty_head.
  - now apply parensLineRx_accepts.
  - now apply chapterOf_parensLine.
Qed.

Lemma bol_true_start pre :
  bol true (lastChar None pre) = true -> noLineTerminator pre -> pre = [].
Proof.
  destruct pre as [|a pre] using rev_ind; [reflexivity|].
  rewrite lastChar_snoc. simpl. intros Ha Hn. apply Forall_app in Hn.
  destruct Hn as [_ Hn]. inversion Hn; congruence.
Qed.

(** On a line without line terminator the Lawful start pattern matches
    only a line that starts with the digit 0. *)
Lemma lawfulStart_head line :
  noLineTerminator line -> test lawfulStartRx line = true ->
  exists r, line = 48 :: r.
Proof.
  intros Hn T. unfold test in T.
  destruct (exec lawfulStartRx line) as [m|] eqn:E; [|discriminate].
  apply exec_sound in E. destruct E as (pre & post & Hs & _ & D).
  change (multiline lawfulStartRx) with true in D.
  cbn [denote rseq source lawfulStartRx] in D.
  destruct D as (w0 & w1 & cs0 & Hw & (-> & Hb & ->) & D).
  rewrite Hs in Hn. apply Forall_app in Hn. destruct Hn as [Hpre _].
  apply (bol_true_start pre Hb) in Hpre. subst pre.
  rewrite Hw in Hs. cbn [app] in Hs. clear Hw.
  destruct D as (o & w2 & cs1 & -> & Do & D).
  destruct D as (z & w3 & cs2 & -> & Dz & _).
  apply denote_ch in Dz. destruct Dz as [-> _].
  destruct Do as [[_ Do]|[-> _]].
  - apply denote_ch in Do. destruct Do as [-> _]. subst line. eexists. reflexivity.
  - subst line. eexists. reflexivity.
Qed.

Lemma parseYouTubeChapters_lawful description c l :
  lawfulParser description = c :: l ->
  parseYouTubeChapters description = c :: l.
Proof. intros E. unfold parseYouTubeChapters. now rewrite E. Qed.

Lemma parseYouTubeChapters_brackets description c l :
  lawfulParser description = [] ->
  bracketsParser description = c :: l ->
  parseYouTubeChapters description = c :: l.
Proof. intros E1 E2. unfold parseYouTubeChapters. now rewrite E1, E2. Qed.

Lemma parseYouTubeChapters_parens description c l :
  lawfulParser description = [] ->
  bracketsParser description = [] ->
  parensParser description = c :: l ->
  parseYouTubeChapters description = c :: l.
Proof. intros E1 E2 E3. unfold parseYouTubeChapters. now rewrite E1, E2, E3. Qed.


Ltac wellFormed_tac :=
  split; [first [discriminate | intros hh E; inversion E; digits_tac]|];
  split; [digits_tac|]; split; [digits_tac|];
  split; [repeat constructor|reflexivity].


Lemma lawfulStart_rejects line c r :
  line = c :: r -> c <> 48 -> noLineTerminator line ->
  test lawfulStartRx line = false.
Proof.
  intros E Hc Hn. destruct (test lawfulStartRx line) eqn:T; [|reflexivity].
  destruct (lawfulStart_head line Hn T) as [r' E']. congruence.
Qed.

Lemma bracketsLine_noLT e : wellFormed e -> noLineTerminator (bracketsLine e).
Proof.
  intros H. pose proof H as (_ & _ & _ & Ht & _). unfold bracketsLine.
  repeat apply noLT_app; try (repeat constructor); try exact Ht.
  now apply entryText_noLT.
Qed.

Lemma parensLine_noLT e : wellFormed e -> noLineTerminator (parensLine e).
Proof.
  intros H. pose proof H as (_ & _ & _ & Ht & _). unfold parensLine.
  repeat apply noLT_app; try (repeat constructor); try exact Ht.
  now apply entryText_noLT.
Qed.



Lemma bracketsStart_rejects line c r :
  line = c :: r -> c <> 91 -> test bracketsStartRx line = false.
Proof.
  intros E Hc. destruct (test bracketsStartRx line) eqn:T; [|reflexivity].
  apply test_bracketsStart in T. destruct T as [[post E']|[post E']];
    rewrite E in E'; inversion E'; congruence.
Qed.



(** ** The Postfix format written out and read back *)

Lemma digits_timeChar s : digits s -> Forall (fun c => timeChar c = true) s.
Proof.
  intros [_ H]. eapply Forall_impl; [|exact H].
  intros c Hc. unfold timeChar. cbn in Hc. now rewrite Hc.
Qed.

Lemma hmsText_timeChar h mm ss :
  (forall hh, h = Some hh -> digits hh) -> digits mm -> digits ss ->
  Forall (fun c => timeChar c = true) (hmsText h mm ss).
Proof.
  intros Hh Hm Hs.
  assert (Hc : Forall (fun c => timeChar c = true) (js ":"))
    by (constructor; [reflexivity|constructor]).
  apply digits_timeChar in Hm, Hs.
  destruct h as [hh|]; unfold hmsText.
  - pose proof (digits_timeChar hh (Hh hh eq_refl)) as H1.
    apply Forall_app; split; [exact H1|].
    apply Forall_app; split; [exact Hc|].
    apply Forall_app; split; [exact Hm|].
    apply Forall_app; split; [exact Hc|exact Hs].
  - apply Forall_app; split; [exact Hm|].
    apply Forall_app; split; [exact Hc|exact Hs].
Qed.

Lemma last_app_nonempty {A} (a b : list A) d :
  b <> [] -> last (a ++ b) d = last b d.
Proof.
  intros Hb. induction a as [|x a IH]; [reflexivity|].
  simpl. destruct (a ++ b) eqn:E; [|exact IH].
  apply app_eq_nil in E. destruct E as [_ ->]. contradiction.
Qed.

Lemma last_In {A} (l : list A) d : l <> [] -> In (last l d) l.
Proof.
  induction l as [|x l IH]; [contradiction|]. intros _.
  destruct l as [|y l]; [now left|]. right. apply IH. discriminate.
Qed.

(** No timestamp starts in a text without timestamp that a space and a
    run of digits and colons follow. *)
Lemma no_timestamp_before_space u H w post h mm ss :
  hasTimestamp u = false ->
  Forall (fun c => timeChar c = true) H ->
  Timestamp h mm ss w ->
  w ++ post = u ++ 32 :: H -> False.
Proof.
  intros Hu HH Ht E.
  assert (Hw : hasTimestamp w = true).
  { apply (occurs_hasTimestamp w 0). exists [], w, [], h, mm, ss.
    rewrite app_nil_r. auto. }
  apply app_eq_app in E. destruct E as [l [[E1 E2]|[E1 E2]]].
  - (* the timestamp text reaches the space *)
    destruct l as [|c l].
    + rewrite app_nil_r in E1. subst w. congruence.
    + inversion E2; subst c. clear E2.
      assert (Hlast : In (last w 0) (32 :: l)).
      { rewrite E1, last_app_nonempty by discriminate.
        apply last_In. discriminate. }
      assert (Hl : Forall (fun c => timeChar c = true) l).
      { subst H. apply Forall_app in HH. tauto. }
      assert (Hin : In 32 w) by (rewrite E1; apply in_or_app; right; now left).
      destruct Ht as (Hh & Hm & Hs & Hshape).
      pose proof (hmsText_timeChar h mm ss Hh Hm Hs) as HT.
      destruct Hshape as [ws1 ws2 _ _|ws1 ws2 _ _|].
      * change (js "]") with [N_of_ascii "]"] in Hlast.
        rewrite !app_assoc, last_last in Hlast.
        destruct Hlast as [Hx|Hx]; [discriminate|].
        rewrite Forall_forall in Hl. specialize (Hl _ Hx). discriminate.
      * change (js ")") with [N_of_ascii ")"] in Hlast.
        rewrite !app_assoc, last_last in Hlast.
        destruct Hlast as [Hx|Hx]; [discriminate|].
        rewrite Forall_forall in Hl. specialize (Hl _ Hx). discriminate.
      * rewrite Forall_forall in HT. specialize (HT _ Hin). discriminate.
  - (* the timestamp text lies within u *)
    subst u. rewrite hasTimestamp_app_l in Hu; [discriminate|exact Hw].
Qed.

Lemma rmatch_timestamp_bare ml h mm ss t p pv :
  (forall hh, h = Some hh -> digits hh) -> digits mm -> digits ss ->
  tailOK t ->
  rmatch ml (source timestampRegex) (MState p pv (hmsText h mm ss ++ t) [])
    (fun y => Some y)
  = Some (MState (p + List.length (hmsText h mm ss))
            (lastChar pv (hmsText h mm ss)) t (bareCaps h mm ss)).
Proof.
  intros Hh Hm Hs Ht.
  destruct (hmsText_head h mm ss Hh Hm) as (d & r & Ed & Hd).
  assert (Hx : forall a, is_digit (N_of_ascii a) = false ->
            forall d0 r0, hmsText h mm ss ++ t = d0 :: r0 -> d0 <> N_of_ascii a).
  { intros a Ha d0 r0 E. rewrite Ed in E. inversion E; subst. congruence. }
  cbn [source timestampRegex rseq].
  rewrite rmatch_alt, ch_fails by (apply Hx; reflexivity).
  rewrite rmatch_alt, ch_fails by (apply Hx; reflexivity).
  apply hms_greedy_first; try assumption. reflexivity.
Qed.

Lemma scan_skip ml r s : forall pre p pv,
  (forall pre1 rest1, pre = pre1 ++ rest1 -> rest1 <> [] ->
     rmatch ml r (MState (p + List.length pre1) (lastChar pv pre1)
                    (rest1 ++ s) []) (fun y => Some y) = None) ->
  scan ml r p pv (pre ++ s)
  = scan ml r (p + List.length pre) (lastChar pv pre) s.
Proof.
  induction pre as [|a pre IH]; intros p pv H.
  - simpl. now rewrite Nat.add_0_r.
  - cbn [app scan].
    pose proof (H [] (a :: pre) eq_refl ltac:(discriminate)) as H0.
    cbn [List.length lastChar fold_left app] in H0.
    rewrite Nat.add_0_r in H0. rewrite H0.
    rewrite IH.
    + cbn [List.length]. rewrite Nat.add_succ_r. reflexivity.
    + intros pre1 rest1 E Hne.
      specialize (H (a :: pre1) rest1). cbn [app List.length] in H.
      rewrite Nat.add_succ_r in H. apply H; [now f_equal|exact Hne].
Qed.

Lemma hasTimestamp_suffix pre u :
  hasTimestamp (pre ++ u) = false -> hasTimestamp u = false.
Proof.
  intros H. destruct (hasTimestamp u) eqn:E; [|reflexivity].
  now rewrite (hasTimestamp_app_r pre u E) in H.
Qed.

(** In a line made of a text without timestamp, a space and a bare
    timestamp, the extractor's pattern matches the timestamp at the
    end. *)
Lemma exec_timestamp_trailing u h mm ss :
  hasTimestamp u = false ->
  (forall hh, h = Some hh -> digits hh) -> digits mm -> digits ss ->
  exec timestampRegex (u ++ js " " ++ hmsText h mm ss)
  = Some (mkMatch (List.length (u ++ js " ")) (hmsText h mm ss)
            (bareCaps h mm ss)).
Proof.
  intros Hu Hh Hm Hs. unfold exec.
  cbn [multiline has_flag flags timestampRegex].
  rewrite app_assoc, scan_skip.
  - rewrite <- (app_nil_r (hmsText h mm ss)) at 1.
    erewrite scan_first;
      [|apply rmatch_timestamp_bare; try assumption; exact I].
    cbn [pos caps]. rewrite app_nil_r.
    replace (0 + List.length (u ++ js " ") + List.length (hmsText h mm ss)
             - (0 + List.length (u ++ js " ")))%nat
      with (List.length (hmsText h mm ss)) by lia.
    now rewrite firstn_all.
  - intros pre1 rest1 E Hne.
    match goal with |- ?x = None => destruct x as [y|] eqn:R end;
      [exfalso|reflexivity].
    apply rmatch_sound in R. destruct R as (w & post & cs' & Ew & D & _).
    apply timestamp_sound in D. destruct D as (h' & mm' & ss' & Ht & _).
    destruct (exists_last Hne) as (u' & c & ->).
    rewrite app_assoc in E. apply app_inj_tail in E. destruct E as [E <-].
    subst u. apply hasTimestamp_suffix in Hu.
    rewrite <- app_assoc in Ew. cbn [app] in Ew. symmetry in Ew.
    exact (no_timestamp_before_space u' _ w post h' mm' ss' Hu
             (hmsText_timeChar h mm ss Hh Hm Hs) Ht Ew).
Qed.

Lemma parseFlexible_of_match line m pre w post h mm ss :
  exec timestampRegex line = Some m ->
  line = pre ++ w ++ post -> index m = List.length pre -> matched m = w ->
  Timestamp h mm ss w ->
  parseFlexibleTimestamps line
  = mkFlexible (totalSeconds h mm ss) (trim (stripOrdinal (pre ++ post))).
Proof.
  intros E El Hi Hw Ht.
  rewrite (Flexible_eta (parseFlexibleTimestamps line)). f_equal.
  - destruct (exec_timestamp_occurs line m E)
      as (pre0 & post0 & h0 & mm0 & ss0 & _ & _ & Ht0 & Ev).
    rewrite Hw in Ht0.
    destruct (Timestamp_unique _ _ _ _ _ _ _ Ht Ht0) as (-> & -> & ->).
    exact Ev.
  - rewrite (rawTitle_found _ _ E). do 2 f_equal. subst line.
    now apply withoutMatch_app.
Qed.

Lemma takeWhile_Forall p s : Forall (fun c => p c = true) (takeWhile p s).
Proof.
  induction s as [|c s IH]; simpl; [constructor|].
  destruct (p c) eqn:E; [now constructor|constructor].
Qed.

Lemma dropWhile_headNot p s : headNot p (dropWhile p s).
Proof.
  induction s as [|c s IH]; simpl; [exact I|].
  destruct (p c) eqn:E; [exact IH|exact E].
Qed.

Lemma stripOrdinal_plain s : hasOrdinal s = false -> stripOrdinal s = s.
Proof.
  unfold hasOrdinal, stripOrdinal.
  destruct (takeWhile is_digit s); [reflexivity|].
  destruct (dropWhile is_digit s); [reflexivity|]. now intros ->.
Qed.

Lemma hasOrdinal_before_space s r :
  hasOrdinal s = false -> hasOrdinal (s ++ 32 :: r) = false.
Proof.
  unfold hasOrdinal. intros H.
  pose proof (takeWhile_dropWhile is_digit s) as E.
  pose proof (takeWhile_Forall is_digit s) as Hds.
  pose proof (dropWhile_headNot is_digit s) as Hr.
  set (ds := takeWhile is_digit s) in *.
  set (rs := dropWhile is_digit s) in *.
  rewrite <- E, <- app_assoc.
  assert (Hn : headNot is_digit (rs ++ 32 :: r))
    by (destruct rs; [reflexivity|exact Hr]).
  destruct (span_app is_digit ds (rs ++ 32 :: r) Hds Hn) as [-> ->].
  destruct ds; [reflexivity|]. destruct rs; [reflexivity|exact H].
Qed.

Lemma trim_fixed_parts s :
  trim s = s -> headNot is_white_space s /\ trimEnd s = s.
Proof.
  intros H. assert (Hh : headNot is_white_space s).
  { rewrite <- H. unfold trim. apply trimEnd_headNot, trimStart_headNot. }
  split; [exact Hh|]. unfold trim in H. now rewrite (trimStart_fix s Hh) in H.
Qed.

Lemma trim_before_space s : trim s = s -> trim (s ++ js " ") = s.
Proof.
  intros H. destruct (trim_fixed_parts s H) as [Hh He].
  destruct s as [|c s]; [reflexivity|].
  unfold trim. rewrite trimStart_fix by exact Hh.
  unfold trimEnd in *. rewrite rev_app_distr. cbn [js List.map
    list_ascii_of_string rev app trimStart]. exact He.
Qed.

Lemma chapterOf_postfixLine e :
  wellFormed e -> plainTitle e -> chapterOf (postfixLine e) = entryChapter e.
Proof.
  intros H [Hts Hord]. pose proof (wellFormed_text e H) as Ht.
  destruct H as (Hh & Hm & Hs & _ & Htrim).
  unfold chapterOf, postfixLine, entryText in *.
  rewrite (parseFlexible_of_match _ _ (entryTitle e ++ js " ")
             (hmsText (entryHours e) (entryMinutes e) (entrySeconds e)) []
             (entryHours e) (entryMinutes e) (entrySeconds e)
             (exec_timestamp_trailing _ _ _ _ Hts Hh Hm Hs)).
  - cbn [timestamp rawTitle]. unfold entryChapter. f_equal.
    rewrite app_nil_r, stripOrdinal_plain
      by (now apply hasOrdinal_before_space).
    rewrite (trim_before_space _ Htrim). exact Htrim.
  - rewrite app_nil_r, <- app_assoc. reflexivity.
  - reflexivity.
  - reflexivity.
  - exact Ht.
Qed.

Lemma postfixRx_accepts e :
  wellFormed e -> test postfixRx (postfixLine e) = true.
Proof.
  intros H. pose proof H as (_ & _ & _ & Ht & _).
  eapply test_of_denote. cbn [multiline source postfixRx has_flag flags].
  change (rseq [RBol; ordinal; RGroup 1 (RStar AnyChar false); RPlus Space;
                hms 2; REol])
    with (RSeq RBol (RSeq ordinal (RSeq (RGroup 1 (RStar AnyChar false))
            (RSeq (RPlus Space) (RSeq (hms 2) REol))))).
  cbn [denote].
  exists [], (postfixLine e), []. split; [reflexivity|]. split; [auto|].
  exists [], (postfixLine e), []. split; [reflexivity|].
  split; [unfold ordinal; cbn [denote]; right; auto|].
  exists (entryTitle e), (js " " ++ entryText e), [(1%nat, entryTitle e)].
  split; [reflexivity|]. split.
  { exists []. split; [|reflexivity]. split; [now apply noLT_anyChar|reflexivity]. }
  exists (js " "), (entryText e), [(1%nat, entryTitle e)].
  split; [reflexivity|]. split.
  { apply denote_plus. split; [discriminate|].
    split; [repeat constructor|reflexivity]. }
  eexists (entryText e), [], _. split; [now rewrite app_nil_r|].
  split; [now apply denote_entry|]. cbn. auto.
Qed.

Lemma blank_of_trim_nil s : trim s = [] -> blank s.
Proof.
  intros H. destruct (trimStart_split s) as (a & Ea & Ha).
  destruct (trimEnd_split (trimStart s)) as (b & Eb & Hb).
  unfold trim in H. rewrite H in Eb. simpl in Eb.
  rewrite Ea, Eb. unfold blank in *. apply Forall_app. now split.
Qed.

Lemma nonEmpty_of_char s c :
  In c s -> is_white_space c = false -> nonEmpty s = true.
Proof.
  intros Hin Hc. unfold nonEmpty. destruct (trim s) eqn:E; [|reflexivity].
  apply blank_of_trim_nil in E. unfold blank in E. rewrite Forall_forall in E.
  specialize (E c Hin). congruence.
Qed.

Lemma postfixLine_noLT e : wellFormed e -> noLineTerminator (postfixLine e).
Proof.
  intros H. pose proof H as (_ & _ & _ & Ht & _). unfold postfixLine.
  apply noLT_app; [exact Ht|]. apply noLT_app; [repeat constructor|].
  now apply entryText_noLT.
Qed.

Lemma postfixLine_ok e :
  wellFormed e -> plainTitle e ->
  ~ In LF (postfixLine e) /\ nonEmpty (postfixLine e) = true /\
  test postfixRx (postfixLine e) = true /\
  chapterOf (postfixLine e) = entryChapter e.
Proof.
  intros H Hp. split; [|split; [|split]].
  - now apply noLT_no_LF, postfixLine_noLT.
  - destruct (entryText_head e H) as (d & r & E & Hd).
    apply (nonEmpty_of_char _ d); [|now apply digit_not_space].
    unfold postfixLine. rewrite E. apply in_or_app. right.
    apply in_or_app. right. now left.
  - now apply postfixRx_accepts.
  - now apply chapterOf_postfixLine.
Qed.

(** The start patterns of the Lawful, Brackets and Parens formats match
    a timestamp at the start of the line. *)
Lemma lawfulStart_prefix line :
  noLineTerminator line -> test lawfulStartRx line = true ->
  (exists post, line = js "0:00" ++ post) \/
  (exists post, line = js "00:00" ++ post).
Proof.
  intros Hn T. unfold test in T.
  destruct (exec lawfulStartRx line) as [m|] eqn:E; [|discriminate].
  apply exec_sound in E. destruct E as (pre & post & Hs & _ & D).
  change (multiline lawfulStartRx) with true in D.
  cbn [denote rseq source lawfulStartRx] in D.
  destruct D as (w0 & w1 & cs0 & Hw & (-> & Hb & ->) & D).
  rewrite Hs in Hn. apply Forall_app in Hn. destruct Hn as [Hpre _].
  apply (bol_true_start pre Hb) in Hpre. subst pre.
  rewrite Hw in Hs. cbn [app] in Hs. clear Hw.
  destruct D as (o & w2 & cs1 & -> & Do & D).
  denote_atoms. subst.
  destruct Do as [[_ Do]|[-> _]].
  - apply denote_ch in Do. destruct Do as [-> _]. right. now exists post.
  - left. now exists post.
Qed.

Lemma lawfulStart_timestamp line :
  noLineTerminator line -> test lawfulStartRx line = true ->
  exists w post h mm ss, line = w ++ post /\ Timestamp h mm ss w.
Proof.
  intros Hn T. destruct (lawfulStart_prefix line Hn T) as [[post ->]|[post ->]].
  - exists (js "0:00"), post, None, (js "0"), (js "00").
    split; [reflexivity|]. split; [discriminate|].
    split; [digits_tac|]. split; [digits_tac|]. apply Bare.
  - exists (js "00:00"), post, None, (js "00"), (js "00").
    split; [reflexivity|]. split; [discriminate|].
    split; [digits_tac|]. split; [digits_tac|]. apply Bare.
Qed.

Lemma bracketsStart_timestamp line :
  test bracketsStartRx line = true ->
  exists w post h mm ss, line = w ++ post /\ Timestamp h mm ss w.
Proof.
  intros T. apply test_bracketsStart in T. destruct T as [[post ->]|[post ->]].
  - exists (js "[0:00]"), post, None, (js "0"), (js "00").
    split; [reflexivity|]. split; [discriminate|].
    split; [digits_tac|]. split; [digits_tac|].
    exact (Bracketed None (js "0") (js "00") [] [] (Forall_nil _) (Forall_nil _)).
  - exists (js "[00:00]"), post, None, (js "00"), (js "00").
    split; [reflexivity|]. split; [discriminate|].
    split; [digits_tac|]. split; [digits_tac|].
    exact (Bracketed None (js "00") (js "00") [] [] (Forall_nil _) (Forall_nil _)).
Qed.

Lemma parensStart_prefix line :
  noLineTerminator line -> test parensStartRx line = true ->
  (exists post, line = js "(0:00)" ++ post) \/
  (exists post, line = js "(00:00)" ++ post).
Proof.
  intros Hn T. unfold test in T.
  destruct (exec parensStartRx line) as [m|] eqn:E; [|discriminate].
  apply exec_sound in E. destruct E as (pre & post & Hs & _ & D).
  change (multiline parensStartRx) with true in D.
  cbn [denote rseq source parensStartRx] in D.
  destruct D as (w0 & w1 & cs0 & Hw & (-> & Hb & ->) & D).
  rewrite Hs in Hn. apply Forall_app in Hn. destruct Hn as [Hpre _].
  apply (bol_true_start pre Hb) in Hpre. subst pre.
  rewrite Hw in Hs. cbn [app] in Hs. clear Hw.
  destruct D as (p0 & w2 & cs1 & -> & Dp & o & w3 & cs2 & -> & Do & D).
  denote_atoms. subst.
  destruct Do as [[_ Do]|[-> _]].
  - apply denote_ch in Do. destruct Do as [-> _]. right. now exists post.
  - left. now exists post.
Qed.

Lemma parensStart_timestamp line :
  noLineTerminator line -> test parensStartRx line = true ->
  exists w post h mm ss, line = w ++ post /\ Timestamp h mm ss w.
Proof.
  intros Hn T. destruct (parensStart_prefix line Hn T) as [[post ->]|[post ->]].
  - exists (js "(0:00)"), post, None, (js "0"), (js "00").
    split; [reflexivity|]. split; [discriminate|].
    split; [digits_tac|]. split; [digits_tac|].
    exact (Parenthesized None (js "0") (js "00") [] []
             (Forall_nil _) (Forall_nil _)).
  - exists (js "(00:00)"), post, None, (js "00"), (js "00").
    split; [reflexivity|]. split; [discriminate|].
    split; [digits_tac|]. split; [digits_tac|].
    exact (Parenthesized None (js "00") (js "00") [] []
             (Forall_nil _) (Forall_nil _)).
Qed.

Lemma postfixLine_not_earlier_start e :
  wellFormed e -> plainTitle e ->
  test lawfulStartRx (postfixLine e) = false /\
  test bracketsStartRx (postfixLine e) = false /\
  test parensStartRx (postfixLine e) = false.
Proof.
  intros H [Hts _]. pose proof (postfixLine_noLT e H) as Hn.
  pose proof H as (Hh & Hm & Hs & _).
  pose proof (hmsText_timeChar _ _ _ Hh Hm Hs) as HT.
  assert (G : forall w post h mm ss,
            postfixLine e = w ++ post -> Timestamp h mm ss w -> False).
  { intros w post h mm ss E Ht. symmetry in E.
    exact (no_timestamp_before_space _ _ w post h mm ss Hts HT Ht E). }
  split; [|split].
  - destruct (test lawfulStartRx (postfixLine e)) eqn:T; [exfalso|reflexivity].
    destruct (lawfulStart_timestamp _ Hn T) as (w & post & h & mm & ss & E & Ht).
    exact (G _ _ _ _ _ E Ht).
  - destruct (test bracketsStartRx (postfixLine e)) eqn:T; [exfalso|reflexivity].
    destruct (bracketsStart_timestamp _ T) as (w & post & h & mm & ss & E & Ht).
    exact (G _ _ _ _ _ E Ht).
  - destruct (test parensStartRx (postfixLine e)) eqn:T; [exfalso|reflexivity].
    destruct (parensStart_timestamp _ Hn T) as (w & post & h & mm & ss & E & Ht).
    exact (G _ _ _ _ _ E Ht).
Qed.

Lemma parseYouTubeChapters_postfix description c l :
  lawfulParser description = [] ->
  bracketsParser description = [] ->
  parensParser description = [] ->
  postfixParser description = c :: l ->
  parseYouTubeChapters description = c :: l.
Proof.
  intros E1 E2 E3 E4. unfold parseYouTubeChapters. now rewrite E1, E2, E3, E4.
Qed.



(** ** The start patterns of the Lawful and Parens formats *)

Lemma bool_eq_of_iff (a b : bool) : (a = true <-> b = true) -> a = b.
Proof.
  destruct a, b; intros [H1 H2]; try reflexivity.
  - symmetry. now apply H1.
  - now apply H2.
Qed.

(** X18: on a line without line terminator the Lawful start pattern
    matches exactly when the line starts with "0:00" or "00:00", and the
    Parens start pattern exactly when it starts with "(0:00)" or
    "(00:00)"; so on a description whose only line terminators are LF
    these two parsers return the empty list when no non-empty line starts
    so. *)
Theorem X18_lawful_and_parens_start :
  (forall line,
     noLineTerminator line ->
     test lawfulStartRx line
       = startsWith (js "0:00") line || startsWith (js "00:00") line /\
     test parensStartRx line
       = startsWith (js "(0:00)") line || startsWith (js "(00:00)") line) /\
  (forall description,
     (forall c, In c description -> is_line_terminator c = true -> c = LF) ->
     ((forall line, In line (skipEmptyLines description) ->
         startsWith (js "0:00") line || startsWith (js "00:00") line = false) ->
      lawfulParser description = []) /\
     ((forall line, In line (skipEmptyLines description) ->
         startsWith (js "(0:00)") line || startsWith (js "(00:00)") line
         = false) ->
      parensParser description = [])).
Proof.
  assert (G : forall line,
     noLineTerminator line ->
     test lawfulStartRx line
       = startsWith (js "0:00") line || startsWith (js "00:00") line /\
     test parensStartRx line
       = startsWith (js "(0:00)") line || startsWith (js "(00:00)") line).
  { intros line Hn. split; apply bool_eq_of_iff;
      rewrite orb_true_iff, !startsWith_spec; split.
    - now apply lawfulStart_prefix.
    - intros [[post ->]|[post ->]]; reflexivity.
    - now apply parensStart_prefix.
    - intros [[post ->]|[post ->]]; reflexivity. }
  split; [exact G|].
  intros description Hd. split; intros H; apply makeChapterParser_none;
    intros line Hl;
    pose proof (skipEmptyLines_noLineTerminator description line Hd Hl) as Hn;
    destruct (G line Hn) as [G1 G2].
  - rewrite G1. now apply H.
  - rewrite G2. now apply H.
Qed.

Lemma X18_witness :
  test lawfulStartRx (js "00:00 Intro") = true /\
  test parensStartRx (js "0:00 Intro") = false.
Proof.
  destruct (proj1 X18_lawful_and_parens_start (js "00:00 Intro")
              ltac:(repeat constructor)) as [H1 _].
  destruct (proj1 X18_lawful_and_parens_start (js "0:00 Intro")
              ltac:(repeat constructor)) as [_ H2].
  split; [rewrite H1|rewrite H2]; reflexivity.
Defined.

(** ** Leading zeros and the size of a start value *)

Lemma digits_zero s : digits s -> digits (js "0" ++ s).
Proof.
  intros [_ H]. split; [discriminate|]. constructor; [reflexivity|exact H].
Qed.


